(** * WAPLNS: warped all-pole lattice noise shaper

    A shallow embedding of [waplns.hpp] / [waplns.cpp] and the properties
    of its parameter store, derived-scale calculator and recurrence engine.

    Numbers are modelled as the code has them: [float] is IEEE 754 binary32,
    [double] is binary64, both through the Standard Library's executable
    specification [SpecFloat] (round to nearest, ties to even; one NaN).
    Every C++ expression is evaluated in the type the language gives it
    (FLT_EVAL_METHOD = 0, no contraction into fused multiply-add), with the
    implicit conversions written out.  [int] is [Z]: no [int] expression of
    the program can overflow, since every loop counter is bounded by a value
    that is already an [int].

    The arrays [k_] and [t_] are lists of [max_wapl_filt_order] cells.  An
    index outside the array is undefined behaviour in C++; the embedding
    reports it as a [fault], so that "every access is in range" is the
    statement that no fault is produced. *)

From Stdlib Require Import ZArith Bool Lia.
From Stdlib Require Import Floats.SpecFloat.
From stdpp Require Import base option list.

#[local] Open Scope Z_scope.

(* ===================================================================== *)
(** ** IEEE 754 arithmetic as used by the program *)
(* ===================================================================== *)

Module IEEE.

Definition prec32 : Z := 24.
Definition emax32 : Z := 128.
Definition prec64 : Z := 53.
Definition emax64 : Z := 1024.

(** The two C++ floating types.  They are kept apart so that every
    implicit conversion of the source shows up in the embedding. *)
Variant float : Type := Float (v : spec_float).
Variant double : Type := Double (v : spec_float).

Definition float_bits (x : float) : spec_float := let 'Float v := x in v.
Definition double_bits (x : double) : spec_float := let 'Double v := x in v.

(** Re-rounding of a value to a format ([static_cast] between the two
    types).  Zeros, infinities and NaN are kept. *)
Definition reround (prec emax : Z) (v : spec_float) : spec_float :=
  match v with
  | S754_finite s m e => binary_normalize prec emax (cond_Zopp s (Zpos m)) e s
  | _ => v
  end.

(** [float] to [double]. *)
Definition to_double (x : float) : double :=
  Double (reround prec64 emax64 (float_bits x)).

(** [double] to [float]: rounds to nearest even. *)
Definition to_float (x : double) : float :=
  Float (reround prec32 emax32 (double_bits x)).

(** [float] arithmetic. *)
Definition fneg (x : float) : float := Float (SFopp (float_bits x)).
Definition fmul (x y : float) : float :=
  Float (SFmul prec32 emax32 (float_bits x) (float_bits y)).
Definition fsub (x y : float) : float :=
  Float (SFsub prec32 emax32 (float_bits x) (float_bits y)).

(** [double] arithmetic. *)
Definition dadd (x y : double) : double :=
  Double (SFadd prec64 emax64 (double_bits x) (double_bits y)).
Definition dsub (x y : double) : double :=
  Double (SFsub prec64 emax64 (double_bits x) (double_bits y)).
Definition dmul (x y : double) : double :=
  Double (SFmul prec64 emax64 (double_bits x) (double_bits y)).
Definition ddiv (x y : double) : double :=
  Double (SFdiv prec64 emax64 (double_bits x) (double_bits y)).

(** The literals of the program. *)
Definition f0 : float := Float (S754_zero false).                  (* 0    *)
Definition f1 : float := Float (S754_finite false 8388608 (-23)).  (* 1.0f *)
Definition d0 : double := Double (S754_zero false).                (* 0    *)
Definition d1 : double :=
  Double (S754_finite false 4503599627370496 (-52)).               (* 1.0  *)

(** A decimal literal [n/d] of type [double], and the same literal stored
    in a [float] (as in [const float k[] = { 0.25, -0.15 }]). *)
Definition dlit (n : Z) (d : positive) : double :=
  ddiv (Double (binary_normalize prec64 emax64 n 0 false))
       (Double (binary_normalize prec64 emax64 (Zpos d) 0 false)).
Definition flit (n : Z) (d : positive) : float := to_float (dlit n d).

(** Classification. *)
Definition sf_is_zero (v : spec_float) : bool :=
  match v with S754_zero _ => true | _ => false end.
(** Neither an infinity nor NaN. *)
Definition sf_is_finite (v : spec_float) : bool :=
  match v with S754_zero _ | S754_finite _ _ _ => true | _ => false end.

Definition fis_zero (x : float) : bool := sf_is_zero (float_bits x).
Definition dis_zero (x : double) : bool := sf_is_zero (double_bits x).
Definition dis_finite (x : double) : bool := sf_is_finite (double_bits x).
(** A finite binary32 number: finite and within the format. *)
Definition fis_finite (x : float) : bool :=
  sf_is_finite (float_bits x) && valid_binary prec32 emax32 (float_bits x).

(** The C++ comparison [x == y]. *)
Definition feq (x y : float) : bool :=
  SFeqb (float_bits x) (float_bits y).
Definition deq (x y : double) : bool :=
  SFeqb (double_bits x) (double_bits y).

End IEEE.
Export IEEE.

(* ===================================================================== *)
(** ** Undefined behaviour as a fault *)
(* ===================================================================== *)

(** Which access left its array. *)
Variant fault : Type :=
  | k_out_of_range (i : Z)       (* [k_[i]] with [i] outside [0, 32)      *)
  | t_out_of_range (i : Z)       (* [t_[i]] with [i] outside [0, 32)      *)
  | temp_out_of_range (i : Z)    (* [temp[i]] in the iterator overload    *)
  | newk_out_of_range (i : Z)    (* the caller's array is shorter         *)
  | iterator_exhausted (i : Z).  (* the caller's sequence is shorter      *)

Variant result (A : Type) : Type :=
  | Ok (a : A)
  | Undefined (f : fault).
Arguments Ok {A} a.
Arguments Undefined {A} f.

#[global] Instance result_ret : MRet result := fun A a => Ok a.
#[global] Instance result_bind : MBind result := fun A B f m =>
  match m with
  | Ok a => f a
  | Undefined e => Undefined e
  end.

(** A fault on one of the object's own arrays. *)
Definition own_array_fault (f : fault) : bool :=
  match f with
  | k_out_of_range _ | t_out_of_range _ => true
  | _ => false
  end.

(** [for (int i = lo; i < hi; ++i) body], with the loop state threaded
    through.  [for_steps n i] runs the next [n] iterations from [i]. *)
Fixpoint for_steps {S : Type} (n : nat) (i : Z)
    (body : Z -> S -> result S) (s : S) : result S :=
  match n with
  | O => Ok s
  | S n' => s' ← body i s; for_steps n' (i + 1) body s'
  end.

Definition for_range {S : Type} (lo hi : Z)
    (body : Z -> S -> result S) (s : S) : result S :=
  for_steps (Z.to_nat (hi - lo)) lo body s.

(* ===================================================================== *)
(** ** The class [waplns] *)
(* ===================================================================== *)

Definition max_wapl_filt_order : Z := 32.

Record waplns : Type := Waplns {
  order_ : Z;
  lambda_ : float;
  k_ : list float;
  s1_ : float;
  s2_ : float;
  t_ : list float;
  next_u_ : float
}.

(** Reading and writing a cell of a [float[max_wapl_filt_order]] array. *)
Definition in_array (i : Z) : bool :=
  (0 <=? i) && (i <? max_wapl_filt_order).

Definition array_read (oob : Z -> fault) (a : list float) (i : Z)
    : result float :=
  if in_array i then
    match a !! Z.to_nat i with
    | Some v => Ok v
    | None => Undefined (oob i)
    end
  else Undefined (oob i).

Definition array_write (oob : Z -> fault) (a : list float) (i : Z) (v : float)
    : result (list float) :=
  if in_array i then
    if decide (Z.to_nat i < length a)%nat then Ok (<[Z.to_nat i := v]> a)
    else Undefined (oob i)
  else Undefined (oob i).

(** A fixed-size array whose cells hold indeterminate values: the contents
    before the first write are arbitrary, given by [junk]. *)
Definition indeterminate_array (junk : nat -> float) : list float :=
  map junk (seq 0 (Z.to_nat max_wapl_filt_order)).

(** Reading the caller's array [newk[i]]: the caller supplied
    [length newk] elements. *)
Definition newk_read (newk : list float) (i : Z) : result float :=
  if 0 <=? i then
    match newk !! Z.to_nat i with
    | Some v => Ok v
    | None => Undefined (newk_out_of_range i)
    end
  else Undefined (newk_out_of_range i).

Definition read_k (w : waplns) (i : Z) : result float :=
  array_read k_out_of_range (k_ w) i.
Definition read_t (w : waplns) (i : Z) : result float :=
  array_read t_out_of_range (t_ w) i.

(** Field updates. *)
Definition set_k (w : waplns) (k' : list float) : waplns :=
  Waplns (order_ w) (lambda_ w) k' (s1_ w) (s2_ w) (t_ w) (next_u_ w).
Definition set_t (w : waplns) (t' : list float) : waplns :=
  Waplns (order_ w) (lambda_ w) (k_ w) (s1_ w) (s2_ w) t' (next_u_ w).
Definition set_lambda_order (w : waplns) (lam : float) (ord : Z) : waplns :=
  Waplns ord lam (k_ w) (s1_ w) (s2_ w) (t_ w) (next_u_ w).
Definition set_scales (w : waplns) (s1 s2 : float) : waplns :=
  Waplns (order_ w) (lambda_ w) (k_ w) s1 s2 (t_ w) (next_u_ w).
Definition set_next_u (w : waplns) (u : float) : waplns :=
  Waplns (order_ w) (lambda_ w) (k_ w) (s1_ w) (s2_ w) (t_ w) u.

(** [k_[i] = v] and [t_[i] = v]. *)
Definition write_k (w : waplns) (i : Z) (v : float) : result waplns :=
  k' ← array_write k_out_of_range (k_ w) i v; Ok (set_k w k').
Definition write_t (w : waplns) (i : Z) (v : float) : result waplns :=
  t' ← array_write t_out_of_range (t_ w) i v; Ok (set_t w t').

(** [waplns() : order_(0), lambda_(0), s1_(1), s2_(1), next_u_(0) {}]:
    [k_] and [t_] are left uninitialised. *)
Definition waplns_new (junk_k junk_t : nat -> float) : waplns :=
  Waplns 0 f0 (indeterminate_array junk_k) f1 f1
         (indeterminate_array junk_t) f0.

(** *** The helpers of the anonymous namespace *)

(** Modelled from the spec: [identity<T>::type] of [tools.hpp], which is
    not among the sources.  Section 4.2 has the butterfly take the
    coefficient together with the accumulators, so the alias is [T] itself
    (the idiom that keeps a parameter out of template argument deduction). *)
Definition identity_type (T : Type) : Type := T.

(** [lattice_step<double>(a, b, k)]: [T] is deduced from [a] and [b], and
    the [float] coefficient is converted to it at the call. *)
Definition lattice_step (a b : double) (k : identity_type double)
    : double * double :=
  let ak := dmul a k in
  let a' := dsub a (dmul b k) in
  let b' := dsub b ak in
  (a', b').

(** [apply_D_alter_t(io, t, lambda)]: returns the new [io] and the new [t]. *)
Definition apply_D_alter_t (io : double) (t lambda : float) : double * float :=
  let next_t := to_float (dadd io (to_double (fmul lambda t))) in
  let io' := to_double (fsub t (fmul lambda next_t)) in
  (io', next_t).

(** [apply_D_keep_t(io, t, lambda)]: returns the new [io]. *)
Definition apply_D_keep_t (io : double) (t lambda : float) : double :=
  let next_t := to_float (dadd io (to_double (fmul lambda t))) in
  to_double (fsub t (fmul lambda next_t)).

(** *** Accessors *)

Definition warp_gain (w : waplns) : float :=
  to_float (ddiv (ddiv d1 (to_double (s1_ w))) (to_double (s2_ w))).
Definition order (w : waplns) : Z := order_ w.
Definition lambda (w : waplns) : float := lambda_ w.
Definition u (w : waplns) : float := next_u_ w.

(** [float k(int idx) const {assert(0<=idx && idx<order_); return k_[idx];}]
    in a build that keeps assertions: a failed assertion ends the program
    before the array is read. *)
Variant checked (A : Type) : Type :=
  | Returned (a : A)
  | AssertionFailed.
Arguments Returned {A} a.
Arguments AssertionFailed {A}.

Definition k (w : waplns) (idx : Z) : result (checked float) :=
  if (0 <=? idx) && (idx <? order_ w) then
    v ← read_k w idx; Ok (Returned v)
  else Ok AssertionFailed.

(** *** Member functions *)

(** The body of the loop of [precompute_derived_params]. *)
Definition precompute_body (negative_lam : double) (w : waplns)
    (i : Z) (ab : double * double) : result (double * double) :=
  let '(a, b) := ab in
  let b := dmul b negative_lam in
  k ← read_k w i;
  Ok (lattice_step a b (to_double k)).

Definition precompute_derived_params (w : waplns) : result waplns :=
  let negative_lam := to_double (fneg (lambda_ w)) in
  ab ← for_range 0 (order_ w) (precompute_body negative_lam w) (d1, d1);
  Ok (set_scales w f1 (to_float (ddiv d1 (fst ab)))).

(** The bodies of the three loops of [set_params]. *)
Definition copy_body (newk : list float) (i : Z) (w : waplns)
    : result waplns :=
  v ← newk_read newk i; write_k w i v.

Definition zero_body (i : Z) (w : waplns) : result waplns :=
  write_t w i f0.

Definition feedback_body (lam : float) (w : waplns)
    (i : Z) (nu : double * double) : result (double * double) :=
  let '(nua, nub) := nu in
  k ← read_k w i;
  t ← read_t w i;
  let nub := apply_D_keep_t nub t lam in
  Ok (lattice_step nua nub (to_double k)).

Definition set_params (lam : float) (ord : Z) (newk : list float)
    (w : waplns) : result waplns :=
  let neword := Z.min ord max_wapl_filt_order in
  w ← for_range 0 neword (copy_body newk) w;
  w ← for_range (order_ w) neword zero_body w;
  let w := set_lambda_order w lam neword in
  w ← precompute_derived_params w;
  nu ← for_range 0 (order_ w) (feedback_body lam w) (d0, d0);
  Ok (set_next_u w (to_float (dmul (fst nu) (to_double (s2_ w))))).

(** The generic-iterator overload.  The caller's sequence is a list read
    from the front; [temp] is a local uninitialised array. *)
Definition fill_body (i : Z) (s : list float * list float)
    : result (list float * list float) :=
  let '(temp, it) := s in
  match it with
  | v :: it' =>
      temp' ← array_write temp_out_of_range temp i v; Ok (temp', it')
  | [] => Undefined (iterator_exhausted i)
  end.

Definition set_params_iter (junk_temp : nat -> float)
    (lam : float) (ord : Z) (it : list float) (w : waplns) : result waplns :=
  let temp := indeterminate_array junk_temp in
  let ord := Z.min ord max_wapl_filt_order in
  s ← for_range 0 ord fill_body (temp, it);
  set_params lam ord (fst s) w.

Definition reset_state (w : waplns) : result waplns :=
  w ← for_range 0 (order_ w) zero_body w;
  Ok (set_next_u w f0).

(** The loop state of [x_was]: the locals [a], [b], [nua], [nub] and the
    object. *)
Record x_was_locals : Type := Locals {
  loc_a : double;
  loc_b : double;
  loc_nua : double;
  loc_nub : double;
  loc_this : waplns
}.

Definition x_was_body (lam : float) (i : Z) (s : x_was_locals)
    : result x_was_locals :=
  let '(Locals a b nua nub w) := s in
  k ← read_k w i;
  (* apply_D_alter_t(b, t_[i], lam) *)
  t ← read_t w i;
  let '(b, t') := apply_D_alter_t b t lam in
  w ← write_t w i t';
  (* apply_D_keep_t(nub, t_[i], lam) *)
  t ← read_t w i;
  let nub := apply_D_keep_t nub t lam in
  let '(a, b) := lattice_step a b (to_double k) in
  let '(nua, nub) := lattice_step nua nub (to_double k) in
  Ok (Locals a b nua nub w).

Definition x_was (x : float) (w : waplns) : result waplns :=
  let y := dsub (to_double x) (to_double (next_u_ w)) in
  let a := dmul y (to_double (s1_ w)) in
  let b := a in
  let lam := lambda_ w in
  s ← for_range 0 (order_ w) (x_was_body lam) (Locals a b d0 d0 w);
  Ok (set_next_u (loc_this s)
        (to_float (dmul (loc_nua s) (to_double (s2_ (loc_this s)))))).

(** *** Call histories *)

Variant call : Type :=
  | SetParams (lam : float) (ord : Z) (newk : list float)
  | SetParamsIter (junk_temp : nat -> float)
      (lam : float) (ord : Z) (it : list float)
  | ResetState
  | XWas (x : float).

Definition do_call (c : call) (w : waplns) : result waplns :=
  match c with
  | SetParams lam ord newk => set_params lam ord newk w
  | SetParamsIter junk lam ord it => set_params_iter junk lam ord it w
  | ResetState => reset_state w
  | XWas x => x_was x w
  end.

Fixpoint run (h : list call) (w : waplns) : result waplns :=
  match h with
  | [] => Ok w
  | c :: h' => w' ← do_call c w; run h' w'
  end.

(* ===================================================================== *)
(** ** Specification-level definitions *)
(* ===================================================================== *)

(** What a computation establishes: [ok] on its result, [bad] on the fault
    it stops with. *)
Definition outcome {A : Type} (ok : A -> Prop) (bad : fault -> Prop)
    (r : result A) : Prop :=
  match r with
  | Ok a => ok a
  | Undefined f => bad f
  end.

(** The arrays have their declared size. *)
Record sized (w : waplns) : Prop := Sized {
  sz_k : length (k_ w) = Z.to_nat max_wapl_filt_order;
  sz_t : length (t_ w) = Z.to_nat max_wapl_filt_order
}.

(** The class invariant the member functions rely on: the order is a
    number of stages of the arrays. *)
Record well_formed (w : waplns) : Prop := WellFormed {
  wf_order : 0 <= order_ w <= max_wapl_filt_order;
  wf_sized : sized w
}.

(** The first [n] cells of an array, [n] an [int]. *)
Definition stages (n : Z) (a : list float) : list float :=
  take (Z.to_nat n) a.

(** *** The recurrences as the specification words them *)

(** The lattice butterfly with coefficient [k]:
    [ak = a*k; a = a - b*k; b = b - ak]. *)
Definition butterfly (a b : double) (k : float) : double * double :=
  let ak := dmul a (to_double k) in
  let a' := dsub a (dmul b (to_double k)) in
  let b' := dsub b ak in
  (a', b').

(** The warping all-pass against a delay [t]:
    [next_t = io + lambda*t; io = t - lambda*next_t].
    Returns the new [io] and [next_t]. *)
Definition allpass (lam : float) (io : double) (t : float) : double * float :=
  let next_t := to_float (dadd io (to_double (fmul lam t))) in
  (to_double (fsub t (fmul lam next_t)), next_t).

(** Section 4.2: from [a], [b], per stage multiply [b] by [-lambda], then
    the butterfly with that stage's coefficient. *)
Fixpoint steady_state (lam : float) (ks : list float) (a b : double)
    : double * double :=
  match ks with
  | [] => (a, b)
  | k :: ks' =>
      let b := dmul b (to_double (fneg lam)) in
      let '(a, b) := butterfly a b k in
      steady_state lam ks' a b
  end.

(** The steady-state accumulator [a], started from [a = 1], [b = 1]. *)
Definition steady_state_gain (lam : float) (ks : list float) : double :=
  fst (steady_state lam ks d1 d1).

(** Section 4.3, step 3, over the stages' coefficients [ks] and delays
    [ts] in stage order.  Per stage: the all-pass on [b] advances the
    delay; the same all-pass on [nub] reads the delay as just advanced
    and stores nothing; one butterfly on [(a, b)] and one on
    [(nua, nub)].  Returns the advanced delays and the accumulators. *)
Fixpoint recurrence (lam : float) (ks ts : list float)
    (a b nua nub : double) : list float * (double * double * double * double) :=
  match ks, ts with
  | k :: ks', t :: ts' =>
      let '(b, next_t) := allpass lam b t in
      let '(nub, _) := allpass lam nub next_t in
      let '(a, b) := butterfly a b k in
      let '(nua, nub) := butterfly nua nub k in
      let '(ts'', acc) := recurrence lam ks' ts' a b nua nub in
      (next_t :: ts'', acc)
  | _, _ => ([], (a, b, nua, nub))
  end.

(** The feedback pass of [set_params]: the look-ahead accumulators alone,
    over delays that are left as they are. *)
Fixpoint lookahead (lam : float) (ks ts : list float) (nua nub : double)
    : double * double :=
  match ks, ts with
  | k :: ks', t :: ts' =>
      let '(nub, _) := allpass lam nub t in
      let '(nua, nub) := butterfly nua nub k in
      lookahead lam ks' ts' nua nub
  | _, _ => (nua, nub)
  end.

(** [x_was] as section 4.3 words it, on a filter of [n] stages. *)
Definition x_was_spec (x : float) (w : waplns) : waplns :=
  let n := order_ w in
  let y := dsub (to_double x) (to_double (next_u_ w)) in
  let a := dmul y (to_double (s1_ w)) in
  let '(ts, (_, _, nua, _)) :=
    recurrence (lambda_ w) (stages n (k_ w)) (stages n (t_ w)) a a d0 d0 in
  set_next_u (set_t w (ts ++ drop (Z.to_nat n) (t_ w)))
             (to_float (dmul nua (to_double (s2_ w)))).

(** What a call [set_params(lam, ord, newk)] on [w] leaves in [w']. *)
Record set_params_post (lam : float) (ord : Z) (newk : list float)
    (w w' : waplns) : Prop := SetParamsPost {
  sp_order : order_ w' = Z.min ord max_wapl_filt_order;
  sp_lambda : lambda_ w' = lam;
  sp_s1 : s1_ w' = f1;
  sp_s2 : s2_ w' =
    to_float (ddiv d1 (steady_state_gain lam (stages (order_ w') (k_ w'))));
  sp_next_u : next_u_ w' =
    to_float (dmul
      (fst (lookahead lam (stages (order_ w') (k_ w'))
              (stages (order_ w') (t_ w')) d0 d0))
      (to_double (s2_ w')));
  sp_sized : sized w';
  sp_k_new : forall m, (m < Z.to_nat (order_ w'))%nat ->
    k_ w' !! m = newk !! m;
  sp_k_old : forall m, (Z.to_nat (order_ w') <= m)%nat ->
    k_ w' !! m = k_ w !! m;
  sp_t_new : forall m, order_ w <= Z.of_nat m < order_ w' ->
    t_ w' !! m = Some f0;
  sp_t_old : forall m, ~ order_ w <= Z.of_nat m < order_ w' ->
    t_ w' !! m = t_ w !! m
}.

(** A fault of the caller: fewer coefficients supplied than requested. *)
Definition caller_fault (f : fault) : bool :=
  match f with
  | newk_out_of_range _ | iterator_exhausted _ => true
  | _ => false
  end.

(** A call whose requested order is not negative. *)
Definition order_nonneg (c : call) : Prop :=
  match c with
  | SetParams _ ord _ | SetParamsIter _ _ ord _ => 0 <= ord
  | ResetState | XWas _ => True
  end.

(** What every filter reached from the constructor satisfies, whatever the
    calls: the arrays have their size, the order is at most [MAX_ORDER],
    [scaleIn] is 1, and without an active stage [scaleOut] is 1 and the
    pending feedback is 0. *)
Record reached (w : waplns) : Prop := Reached {
  re_sized : sized w;
  re_order : order_ w <= max_wapl_filt_order;
  re_s1 : s1_ w = f1;
  re_s2 : order_ w <= 0 -> s2_ w = f1;
  re_next_u : order_ w <= 0 -> next_u_ w = f0
}.

(** Two filters that differ at most in the delays of inactive stages
    ([t_[i]] with [i >= order]). *)
Record same_active (w1 w2 : waplns) : Prop := SameActive {
  sa_order : order_ w1 = order_ w2;
  sa_lambda : lambda_ w1 = lambda_ w2;
  sa_k : k_ w1 = k_ w2;
  sa_s1 : s1_ w1 = s1_ w2;
  sa_s2 : s2_ w1 = s2_ w2;
  sa_next_u : next_u_ w1 = next_u_ w2;
  sa_t : stages (order_ w1) (t_ w1) = stages (order_ w2) (t_ w2)
}.

(** The feedback the third loop of [set_params] computes from the
    parameters and delays a filter holds. *)
Definition feedback_of (w : waplns) : float :=
  let n := order_ w in
  to_float (dmul
    (fst (lookahead (lambda_ w) (stages n (k_ w)) (stages n (t_ w)) d0 d0))
    (to_double (s2_ w))).

(** The output scale [precompute_derived_params] computes from the
    parameters a filter holds. *)
Definition scale_of (w : waplns) : float :=
  to_float (ddiv d1
    (steady_state_gain (lambda_ w) (stages (order_ w) (k_ w)))).

(** What [set_params] needs in order to return: the zeroing loop, when it
    runs, starts inside [t_], and the caller supplied the coefficients to
    copy. *)
Definition set_params_defined (ord : Z) (newk : list float) (w : waplns)
    : Prop :=
  (order_ w < Z.min ord max_wapl_filt_order -> 0 <= order_ w) /\
  (Z.to_nat (Z.min ord max_wapl_filt_order) <= length newk)%nat.

(** NaN. *)
Definition sf_is_nan (v : spec_float) : bool :=
  match v with S754_nan => true | _ => false end.
Definition fis_nan (x : float) : bool := sf_is_nan (float_bits x).
Definition dis_nan (x : double) : bool := sf_is_nan (double_bits x).

(** A filter at rest: the active delays and the pending feedback are
    zeros. *)
Definition at_rest (w : waplns) : Prop :=
  Forall (fun t => fis_zero t = true) (stages (order_ w) (t_ w)) /\
  fis_zero (next_u_ w) = true.

(** A configuration of finite numbers. *)
Definition finite_config (w : waplns) : Prop :=
  fis_finite (lambda_ w) = true /\
  Forall (fun c => fis_finite c = true) (stages (order_ w) (k_ w)) /\
  fis_finite (s2_ w) = true.

(** A filter holding a NaN: at least one stage is active, the delay of
    stage 0 is NaN and so is the pending feedback. *)
Definition poisoned (w : waplns) : Prop :=
  1 <= order_ w /\
  (exists t, t_ w !! 0%nat = Some t /\ fis_nan t = true) /\
  fis_nan (next_u_ w) = true.

(** A call that leaves stage 0 running: no [reset_state], and every
    [set_params] requests at least one stage. *)
Definition keeps_stage (c : call) : Prop :=
  match c with
  | SetParams _ ord _ | SetParamsIter _ _ ord _ => 1 <= ord
  | ResetState => False
  | XWas _ => True
  end.

(** The demonstration driver: a fresh filter (indeterminate cells shown as
    zeros) configured with [lambda = 0.5], order 2, [k = { 0.25, -0.15 }]. *)
Definition demo_new : waplns := waplns_new (fun _ => f0) (fun _ => f0).
Definition demo_k : list float := [flit 1 4; flit (-15) 100].
Definition demo_lambda : float := flit 1 2.
Definition demo_history : list call := [SetParams demo_lambda 2 demo_k].

(* ===================================================================== *)
(** ** Facts of IEEE 754 arithmetic *)
(* ===================================================================== *)

Section Rounding.
Variables prec emax : Z.
Hypothesis prec_gt_0 : 0 < prec.

Lemma digits2_pos_size p : digits2_pos p = Pos.size p.
Proof. induction p as [p IH|p IH|]; cbn [digits2_pos Pos.size]; congruence. Qed.

Lemma Zdigits2_log2 z : 0 < z -> Zdigits2 z = Z.log2 z + 1.
Proof.
  destruct z as [|p|p]; try lia. intros _. cbn [Zdigits2].
  rewrite digits2_pos_size. destruct p; cbn [Z.log2 Pos.size]; lia.
Qed.

Lemma Zdigits2_pos z : 0 < z -> 0 < Zdigits2 z.
Proof. destruct z; cbn [Zdigits2]; lia. Qed.

Lemma Zdigits2_bounds z :
  0 < z -> 2 ^ (Zdigits2 z - 1) <= z < 2 ^ Zdigits2 z.
Proof.
  intros Hz. rewrite Zdigits2_log2 by done.
  replace (Z.log2 z + 1 - 1) with (Z.log2 z) by lia.
  apply Z.log2_spec. done.
Qed.

Lemma Zdigits2_unique z k :
  0 < z -> 2 ^ (k - 1) <= z < 2 ^ k -> Zdigits2 z = k.
Proof.
  intros Hz [Hlo Hhi]. rewrite Zdigits2_log2 by done.
  assert (0 < k) as Hk.
  { destruct (Z.lt_ge_cases 0 k) as [|Hle]; [done|]. exfalso.
    assert (2 ^ k <= 1); [|lia].
    destruct (Z.eq_dec k 0) as [->|]; [done|].
    rewrite Z.pow_neg_r by lia. lia. }
  rewrite (Z.log2_unique z (k - 1)); [lia|lia|].
  by replace (Z.succ (k - 1)) with k by lia.
Qed.

Lemma iter_pos_iter {A} (f : A -> A) p : forall x,
  SpecFloat.iter_pos f p x = Pos.iter f x p.
Proof.
  induction p as [p IH|p IH|]; intros x; cbn [SpecFloat.iter_pos Pos.iter].
  - by rewrite !IH, !Pos.iter_swap.
  - by rewrite !IH.
  - done.
Qed.

Lemma shr_1_m mrs : 0 <= shr_m mrs -> shr_m (shr_1 mrs) = Z.div2 (shr_m mrs).
Proof. destruct mrs as [[|[p|p|]|p] r s]; cbn; done || lia. Qed.

Lemma shr_m_iter p : forall mrs,
  0 <= shr_m mrs ->
  shr_m (Pos.iter shr_1 mrs p) = shr_m mrs / 2 ^ Zpos p.
Proof.
  induction p as [|p IH] using Pos.peano_ind; intros mrs Hm.
  - cbn [Pos.iter]. rewrite shr_1_m by done. by rewrite Z.div2_div.
  - rewrite Pos.iter_succ, shr_1_m.
    + rewrite IH by done. rewrite Z.div2_div, Z.div_div by lia.
      f_equal. rewrite Pos2Z.inj_succ, Z.pow_succ_r by lia. lia.
    + rewrite IH by done. apply Z.div_pos; lia.
Qed.

Lemma shr_m_of_loc m l : shr_m (shr_record_of_loc m l) = m.
Proof. by destruct l as [|[]]. Qed.

Lemma round_nearest_even_range m l :
  m <= round_nearest_even m l <= m + 1.
Proof. destruct l as [|[]]; cbn; try destruct (Z.even m); lia. Qed.

(** [shr_fexp] divides the mantissa by the power of two that brings the
    exponent to [fexp]. *)
Lemma shr_fexp_spec m e l :
  0 <= m ->
  e <= fexp prec emax (Zdigits2 m + e) ->
  snd (shr_fexp prec emax m e l) = fexp prec emax (Zdigits2 m + e) /\
  shr_m (fst (shr_fexp prec emax m e l))
    = m / 2 ^ (fexp prec emax (Zdigits2 m + e) - e).
Proof.
  intros Hm He. unfold shr_fexp, shr.
  destruct (fexp prec emax (Zdigits2 m + e) - e) as [|p|p] eqn:Hn; try lia.
  - cbn [fst snd]. rewrite shr_m_of_loc, Z.div_1_r. lia.
  - cbn [fst snd]. rewrite iter_pos_iter, shr_m_iter, shr_m_of_loc.
    + lia.
    + by rewrite shr_m_of_loc.
Qed.

Lemma shr_fexp_zero e : shr_m (fst (shr_fexp prec emax 0 e loc_Exact)) = 0.
Proof.
  unfold shr_fexp, shr. destruct (_ - e) as [|p|p]; try done.
  cbn [fst]. rewrite iter_pos_iter, shr_m_iter; done.
Qed.

(** A mantissa already in canonical position is left as it is. *)
Lemma binary_round_aux_canonical s m e :
  fexp prec emax (Zpos (digits2_pos m) + e) = e ->
  e <= emax - prec ->
  binary_round_aux prec emax s (Zpos m) e loc_Exact = S754_finite s m e.
Proof.
  intros Hfexp Hemax. unfold binary_round_aux, shr_fexp.
  cbn [Zdigits2 shr_record_of_loc]. rewrite Hfexp, Z.sub_diag.
  cbn [shr shr_m loc_of_shr_record round_nearest_even Zdigits2
       shr_record_of_loc].
  rewrite Hfexp, Z.sub_diag. cbn [shr shr_m].
  by replace (e <=? emax - prec) with true by lia.
Qed.

Lemma fexp_mono x y : x <= y -> fexp prec emax x <= fexp prec emax y.
Proof. unfold fexp. lia. Qed.

Lemma fexp_ge_emin x : emin prec emax <= fexp prec emax x.
Proof. unfold fexp. lia. Qed.

(** Rounding a positive mantissa, whose exponent is not above the
    canonical one, gives a number of the format. *)
Lemma binary_round_aux_bounded s m e l s' m' e' :
  0 < m ->
  e <= fexp prec emax (Zdigits2 m + e) ->
  binary_round_aux prec emax s m e l = S754_finite s' m' e' ->
  bounded prec emax m' e' = true.
Proof.
  intros Hm He. unfold binary_round_aux.
  destruct (shr_fexp_spec m e l ltac:(lia) He) as [He1 Hm1].
  destruct (shr_fexp prec emax m e l) as [mrs1 e1]. cbn [fst snd] in *.
  pose proof (fexp_ge_emin (Zdigits2 m + e)) as Hemin.
  set (N := fexp prec emax (Zdigits2 m + e)) in *. subst e1.
  pose proof (round_nearest_even_range (shr_m mrs1) (loc_of_shr_record mrs1))
    as Hr.
  set (m1 := round_nearest_even (shr_m mrs1) (loc_of_shr_record mrs1)) in *.
  rewrite Hm1 in Hr. clear Hm1.
  pose proof (Zdigits2_bounds m Hm) as Hd.
  set (d := Zdigits2 m) in *.
  set (n1 := N - e) in *.
  assert (0 <= n1) as Hn1 by lia.
  assert (0 < 2 ^ n1) as Hpow by (apply Z.pow_pos_nonneg; lia).
  assert (0 <= m / 2 ^ n1) as Hq by (apply Z.div_pos; lia).
  destruct (Z.eq_dec m1 0) as [Hz|Hnz].
  { rewrite Hz. pose proof (shr_fexp_zero N) as H0.
    destruct (shr_fexp prec emax 0 N loc_Exact) as [mrs2 e2].
    cbn [fst] in H0. by rewrite H0. }
  assert (0 < m1) as Hm1 by lia.
  (* the rounded mantissa between two powers of two *)
  set (K := Z.max (d - n1) 0).
  assert (m1 <= 2 ^ K) as Hup.
  { assert (m / 2 ^ n1 < 2 ^ K); [|lia]. unfold K.
    destruct (Z.le_gt_cases 0 (d - n1)) as [Hge|Hlt].
    - rewrite Z.max_l by done. apply Z.div_lt_upper_bound; [done|].
      rewrite <- Z.pow_add_r by lia.
      replace (n1 + (d - n1)) with d by lia. lia.
    - rewrite Z.max_r by lia. rewrite Z.div_small; [done|].
      split; [lia|]. eapply Z.lt_le_trans; [apply Hd|].
      apply Z.pow_le_mono_r; lia. }
  assert (d - n1 <= Zdigits2 m1) as Hlow.
  { pose proof (Zdigits2_bounds m1 Hm1) as [_ Hhi].
    pose proof (Zdigits2_pos m1 Hm1) as HD1.
    destruct (Z.le_gt_cases (d - n1) 0) as [|Hpos]; [lia|].
    assert (2 ^ (d - 1 - n1) <= m / 2 ^ n1) as Hlo.
    { apply Z.div_le_lower_bound; [done|].
      rewrite <- Z.pow_add_r by lia.
      replace (n1 + (d - 1 - n1)) with (d - 1) by lia. lia. }
    assert (2 ^ (d - 1 - n1) < 2 ^ Zdigits2 m1) as Hlt by lia.
    apply Z.pow_lt_mono_r_iff in Hlt; lia. }
  assert (Zdigits2 m1 <= K \/ (Zdigits2 m1 = K + 1 /\ m1 = 2 ^ K)) as Hcases.
  { pose proof (Zdigits2_bounds m1 Hm1) as [Hlo _].
    assert (2 ^ (Zdigits2 m1 - 1) <= 2 ^ K) as Hle by lia.
    apply Z.pow_le_mono_r_iff in Hle; [|lia|unfold K; lia].
    destruct (Z.eq_dec (Zdigits2 m1) (K + 1)) as [Heq|]; [|lia].
    right. split; [done|].
    replace (Zdigits2 m1 - 1) with K in Hlo by lia. lia. }
  (* the second shift *)
  assert (N <= fexp prec emax (Zdigits2 m1 + N)) as He2.
  { apply fexp_mono. lia. }
  destruct (shr_fexp_spec m1 N loc_Exact ltac:(lia) He2) as [He2' Hm2].
  destruct (shr_fexp prec emax m1 N loc_Exact) as [mrs2 e2].
  cbn [fst snd] in *. subst e2. rewrite Hm2. clear Hm2.
  destruct (m1 / 2 ^ (fexp prec emax (Zdigits2 m1 + N) - N))
    as [|m2|m2] eqn:Hm2; try done.
  destruct (_ <=? emax - prec) eqn:Hemax; [|done].
  intros [= <- <- <-]. unfold bounded, canonical_mantissa.
  rewrite Hemax, andb_true_r. apply Z.eqb_eq.
  change (Z.pos (digits2_pos m2)) with (Zdigits2 (Z.pos m2)).
  rewrite <- Hm2. clear Hm2 Hemax.
  destruct (Z.eq_dec (fexp prec emax (Zdigits2 m1 + N)) N) as [Heq|Hne].
  { rewrite Heq, Z.sub_diag, Z.div_1_r. done. }
  (* one more digit than the format holds: the mantissa is [2 ^ prec] *)
  assert (d - n1 <= prec) as Hdn by (unfold n1, N, fexp; lia).
  assert (Zdigits2 m1 = prec + 1 /\ m1 = 2 ^ prec) as [HD1 Hm1'].
  { unfold fexp in He2, Hne.
    assert (prec < Zdigits2 m1) by (unfold emin in *; lia).
    destruct Hcases as [Hle|[HD1 Hp]]; [unfold K in Hle; lia|].
    assert (K = prec) as HK by (unfold K in *; lia).
    rewrite HK in *. done. }
  assert (fexp prec emax (Zdigits2 m1 + N) = N + 1) as ->
    by (unfold fexp in *; lia).
  replace (N + 1 - N) with 1 by lia. rewrite Hm1'.
  replace (2 ^ prec / 2 ^ 1) with (2 ^ (prec - 1)).
  2:{ replace prec with (prec - 1 + 1) at 2 by lia.
      rewrite Z.pow_add_r by lia. by rewrite Z.div_mul. }
  rewrite (Zdigits2_unique (2 ^ (prec - 1)) prec).
  - unfold fexp. lia.
  - apply Z.pow_pos_nonneg; lia.
  - split; [lia|]. apply Z.pow_lt_mono_r; lia.
Qed.

Lemma digits2_pos_iter_xO m p :
  Zpos (digits2_pos (Pos.iter xO m p)) = Zpos (digits2_pos m) + Zpos p.
Proof.
  induction p as [|p IH] using Pos.peano_ind.
  - cbn [Pos.iter digits2_pos]. lia.
  - rewrite Pos.iter_succ. cbn [digits2_pos]. lia.
Qed.

Lemma binary_round_bounded s m e s' m' e' :
  binary_round prec emax s m e = S754_finite s' m' e' ->
  bounded prec emax m' e' = true.
Proof.
  unfold binary_round, shl_align.
  destruct (fexp prec emax (Z.pos (digits2_pos m) + e) - e) as [|p|p] eqn:Hn;
    apply binary_round_aux_bounded; cbn [Zdigits2]; try lia.
  rewrite digits2_pos_iter_xO.
  replace (Z.pos (digits2_pos m) + Z.pos p
           + fexp prec emax (Z.pos (digits2_pos m) + e))
    with (Z.pos (digits2_pos m) + e) by lia.
  lia.
Qed.

Lemma binary_normalize_valid m e sz :
  valid_binary prec emax (binary_normalize prec emax m e sz) = true.
Proof.
  destruct m as [|m|m]; cbn [binary_normalize]; [done| |].
  - destruct (binary_round prec emax false m e) as [| | |s' m' e'] eqn:Hr;
      try done. by apply binary_round_bounded in Hr.
  - destruct (binary_round prec emax true m e) as [| | |s' m' e'] eqn:Hr;
      try done. by apply binary_round_bounded in Hr.
Qed.

Lemma shr_iter_xO m p :
  Pos.iter shr_1 (Build_shr_record (Zpos (Pos.iter xO m p)) false false) p
  = Build_shr_record (Zpos m) false false.
Proof.
  induction p as [|p IH] using Pos.peano_ind; [done|].
  rewrite (Pos.iter_succ _ _ xO), (Pos.iter_succ _ _ shr_1), <- Pos.iter_swap.
  apply IH.
Qed.

(** A number of the format whose mantissa was shifted left, the exponent
    lowered accordingly, rounds to itself. *)
Lemma binary_round_aux_shifted s m e p :
  bounded prec emax m e = true ->
  binary_round_aux prec emax s (Zpos (Pos.iter xO m p)) (e - Zpos p) loc_Exact
  = S754_finite s m e.
Proof.
  unfold bounded, canonical_mantissa.
  rewrite andb_true_iff, Z.eqb_eq, Z.leb_le. intros [Hc He].
  unfold binary_round_aux, shr_fexp. cbn [Zdigits2].
  rewrite digits2_pos_iter_xO.
  replace (Z.pos (digits2_pos m) + Z.pos p + (e - Z.pos p))
    with (Z.pos (digits2_pos m) + e) by lia.
  rewrite Hc. replace (e - (e - Z.pos p)) with (Z.pos p) by lia.
  cbn [shr shr_record_of_loc]. rewrite iter_pos_iter, shr_iter_xO.
  cbn [shr_m loc_of_shr_record round_nearest_even Zdigits2 shr_record_of_loc].
  replace (e - Z.pos p + Z.pos p) with e by lia.
  rewrite Hc, Z.sub_diag. cbn [shr shr_m].
  by replace (e <=? emax - prec) with true by lia.
Qed.
End Rounding.

Lemma SFmul_one_l_32 s m e :
  bounded 24 128 m e = true ->
  SFmul 24 128 (S754_finite false 8388608 (-23)) (S754_finite s m e)
  = S754_finite s m e.
Proof.
  intros Hb. cbn [SFmul xorb].
  change (8388608 * m)%positive with (Pos.iter xO m 23).
  replace (-23 + e) with (e - 23) by lia.
  by apply binary_round_aux_shifted.
Qed.

Lemma SFmul_one_l_64 s m e :
  bounded 53 1024 m e = true ->
  SFmul 53 1024 (S754_finite false 4503599627370496 (-52)) (S754_finite s m e)
  = S754_finite s m e.
Proof.
  intros Hb. cbn [SFmul xorb].
  change (4503599627370496 * m)%positive with (Pos.iter xO m 52).
  replace (-52 + e) with (e - 52) by lia.
  by apply binary_round_aux_shifted.
Qed.

(** Every conversion yields a number of the target format. *)
Lemma reround_valid prec emax v :
  0 < prec -> valid_binary prec emax (reround prec emax v) = true.
Proof.
  intros Hprec. destruct v as [| | |s m e]; try done.
  by apply binary_normalize_valid.
Qed.

Lemma to_float_valid x :
  valid_binary prec32 emax32 (float_bits (to_float x)) = true.
Proof. by apply reround_valid. Qed.

Lemma to_double_valid x :
  valid_binary prec64 emax64 (double_bits (to_double x)) = true.
Proof. by apply reround_valid. Qed.

(** Multiplication by the literal 1 is exact. *)
Lemma fmul_one_l x :
  valid_binary prec32 emax32 (float_bits x) = true -> fmul f1 x = x.
Proof.
  destruct x as [[s|s| |s m e]]; try done.
  intros Hb. unfold fmul. cbn [float_bits f1]. f_equal.
  by apply SFmul_one_l_32.
Qed.

Lemma dmul_one_l x :
  valid_binary prec64 emax64 (double_bits x) = true -> dmul d1 x = x.
Proof.
  destruct x as [[s|s| |s m e]]; try done.
  intros Hb. unfold dmul. cbn [double_bits d1]. f_equal.
  by apply SFmul_one_l_64.
Qed.

(** Widening a finite binary32 number gives a finite binary64 number. *)
Lemma to_double_finite x :
  fis_finite x = true -> dis_finite (to_double x) = true.
Proof.
  destruct x as [[s|s| |s m e]]; try done.
  unfold fis_finite, dis_finite, to_double.
  cbn [float_bits double_bits sf_is_finite valid_binary reround andb].
  unfold bounded, canonical_mantissa, fexp, emin, prec32, emax32.
  rewrite andb_true_iff, Z.eqb_eq, Z.leb_le. intros [Hcanon Hemax].
  set (d := Zpos (digits2_pos m)) in *.
  assert (0 < d) as Hd by (unfold d; lia).
  assert (binary_normalize prec64 emax64 (cond_Zopp s (Zpos m)) e s
          = binary_round prec64 emax64 s m e) as -> by (by destruct s).
  unfold binary_round, shl_align, fexp, emin, prec64, emax64. fold d.
  replace (Z.max (d + e - 53) (3 - 1024 - 53) - e) with (d - 53) by lia.
  destruct (d - 53) as [|p|p] eqn:Hp; try lia.
  replace (Z.max (d + e - 53) (3 - 1024 - 53)) with (d + e - 53) by lia.
  rewrite (binary_round_aux_canonical 53 1024); [done| |lia].
  rewrite digits2_pos_iter_xO. fold d. unfold fexp, emin. lia.
Qed.

(** *** Arithmetic on zeros

    With finite operands, sums, differences and products of zeros are
    zeros (of either sign); an infinite or NaN operand breaks this. *)

Lemma to_double_zero x : fis_zero x = true -> dis_zero (to_double x) = true.
Proof. by destruct x as [[| | |]]. Qed.

Lemma to_float_zero x : dis_zero x = true -> fis_zero (to_float x) = true.
Proof. by destruct x as [[| | |]]. Qed.

Lemma fmul_finite_zero x y :
  sf_is_finite (float_bits x) = true -> fis_zero y = true ->
  fis_zero (fmul x y) = true.
Proof. by destruct x as [[| | |]], y as [[| | |]]. Qed.

Lemma fsub_zero_zero x y :
  fis_zero x = true -> fis_zero y = true -> fis_zero (fsub x y) = true.
Proof. by destruct x as [[[]| | |]], y as [[[]| | |]]. Qed.

Lemma dadd_zero_zero x y :
  dis_zero x = true -> dis_zero y = true -> dis_zero (dadd x y) = true.
Proof. by destruct x as [[[]| | |]], y as [[[]| | |]]. Qed.

Lemma dsub_zero_zero x y :
  dis_zero x = true -> dis_zero y = true -> dis_zero (dsub x y) = true.
Proof. by destruct x as [[[]| | |]], y as [[[]| | |]]. Qed.

Lemma dmul_zero_finite x y :
  dis_zero x = true -> dis_finite y = true -> dis_zero (dmul x y) = true.
Proof. by destruct x as [[| | |]], y as [[| | |]]. Qed.

Lemma fis_finite_bits x :
  fis_finite x = true -> sf_is_finite (float_bits x) = true.
Proof. unfold fis_finite. by intros [? _]%andb_true_iff. Qed.

Lemma allpass_zero lam io t :
  fis_finite lam = true -> dis_zero io = true -> fis_zero t = true ->
  dis_zero (fst (allpass lam io t)) = true.
Proof.
  intros Hlam%fis_finite_bits Hio Ht. unfold allpass. cbn [fst].
  apply to_double_zero, fsub_zero_zero; [done|].
  apply fmul_finite_zero; [done|].
  apply to_float_zero, dadd_zero_zero; [done|].
  by apply to_double_zero, fmul_finite_zero.
Qed.

Lemma butterfly_zero a b k :
  dis_zero a = true -> dis_zero b = true -> fis_finite k = true ->
  dis_zero (fst (butterfly a b k)) = true /\
  dis_zero (snd (butterfly a b k)) = true.
Proof.
  intros Ha Hb Hk%to_double_finite. unfold butterfly. cbn [fst snd].
  split; apply dsub_zero_zero; try done; by apply dmul_zero_finite.
Qed.

(** Over zero delays, with finite [lambda] and coefficients, the feedback
    pass of [set_params] keeps both accumulators at zero. *)
Lemma lookahead_zero lam : forall ks ts nua nub,
  fis_finite lam = true ->
  Forall (fun k => fis_finite k = true) ks ->
  Forall (fun t => fis_zero t = true) ts ->
  dis_zero nua = true -> dis_zero nub = true ->
  dis_zero (fst (lookahead lam ks ts nua nub)) = true.
Proof.
  induction ks as [|k ks IH]; intros [|t ts] nua nub Hlam Hks Hts Ha Hb;
    try done.
  apply Forall_cons in Hks as [Hk Hks]. apply Forall_cons in Hts as [Ht Hts].
  cbn [lookahead].
  pose proof (allpass_zero lam nub t Hlam Hb Ht) as Hnub.
  destruct (allpass lam nub t) as [nub1 nt]. cbn [fst] in Hnub.
  pose proof (butterfly_zero nua nub1 k Ha Hnub Hk) as [Ha2 Hb2].
  destruct (butterfly nua nub1 k) as [nua2 nub2]. cbn [fst snd] in *.
  by apply IH.
Qed.

(* ===================================================================== *)
(** ** Loops and arrays *)
(* ===================================================================== *)

Section Loops.
Context {S : Type}.
Implicit Types (body : Z -> S -> result S) (P : Z -> S -> Prop)
  (Q : fault -> Prop).

Lemma for_steps_outcome P Q body n i s :
  P i s ->
  (forall j s, i <= j < i + Z.of_nat n -> P j s ->
     outcome (P (j + 1)) Q (body j s)) ->
  outcome (P (i + Z.of_nat n)) Q (for_steps n i body s).
Proof.
  revert i s. induction n as [|n IH]; intros i s HP Hbody; simpl.
  - by rewrite Z.add_0_r.
  - specialize (Hbody i s ltac:(lia) HP) as Hstep.
    replace (i + Z.of_nat (Datatypes.S n)) with (i + 1 + Z.of_nat n) by lia.
    destruct (body i s) as [s'|f]; simpl in Hstep |- *; [|done].
    apply IH; [done|].
    intros j s0 Hj. apply Hbody. lia.
Qed.

Lemma for_range_outcome P Q body lo hi s :
  lo <= hi ->
  P lo s ->
  (forall j s, lo <= j < hi -> P j s -> outcome (P (j + 1)) Q (body j s)) ->
  outcome (P hi) Q (for_range lo hi body s).
Proof.
  intros Hle HP Hbody. unfold for_range.
  replace hi with (lo + Z.of_nat (Z.to_nat (hi - lo))) at 1 by lia.
  apply for_steps_outcome; [done|].
  intros j s0 Hj. apply Hbody. lia.
Qed.

Lemma for_range_empty body lo hi s :
  hi <= lo -> for_range lo hi body s = Ok s.
Proof.
  intros Hle. unfold for_range.
  by replace (Z.to_nat (hi - lo)) with O by lia.
Qed.

(** Total correctness: the loop returns, in a state of the invariant. *)
Lemma for_range_total P body lo hi s :
  lo <= hi ->
  P lo s ->
  (forall j s, lo <= j < hi -> P j s ->
     exists s', body j s = Ok s' /\ P (j + 1) s') ->
  exists s', for_range lo hi body s = Ok s' /\ P hi s'.
Proof.
  intros Hle HP Hbody.
  pose proof (for_range_outcome P (fun _ => False) body lo hi s Hle HP) as H.
  destruct (for_range lo hi body s) as [s'|f]; simpl in H.
  - exists s'. split; [done|]. apply H.
    intros j s0 Hj HPj. destruct (Hbody j s0 Hj HPj) as (s1 & -> & ?). done.
  - exfalso. apply H.
    intros j s0 Hj HPj. destruct (Hbody j s0 Hj HPj) as (s1 & -> & ?). done.
Qed.

(** Partial correctness: whatever the loop returns is in the invariant. *)
Lemma for_range_partial P body lo hi s s' :
  lo <= hi ->
  P lo s ->
  (forall j s s', lo <= j < hi -> P j s -> body j s = Ok s' -> P (j + 1) s') ->
  for_range lo hi body s = Ok s' -> P hi s'.
Proof.
  intros Hle HP Hbody Hrun.
  pose proof (for_range_outcome P (fun _ => True) body lo hi s Hle HP) as H.
  rewrite Hrun in H. apply H.
  intros j s0 Hj HPj. specialize (Hbody j s0).
  destruct (body j s0); simpl; [|done]. by apply Hbody.
Qed.

(** Every iteration of a loop that returns has returned. *)
Lemma for_steps_Ok_iter body n : forall i s s',
  for_steps n i body s = Ok s' ->
  forall j, i <= j < i + Z.of_nat n ->
  exists sj sj', body j sj = Ok sj'.
Proof.
  induction n as [|n IH]; intros i s s' Hrun j Hj; [lia|].
  simpl in Hrun. destruct (body i s) as [s1|] eqn:Hbody; [|done].
  simpl in Hrun. destruct (decide (j = i)) as [->|Hne]; [eauto|].
  apply (IH _ _ _ Hrun). lia.
Qed.

Lemma for_range_Ok_iter body lo hi s s' j :
  for_range lo hi body s = Ok s' -> lo <= j < hi ->
  exists sj sj', body j sj = Ok sj'.
Proof.
  unfold for_range. intros Hrun Hj.
  apply (for_steps_Ok_iter _ _ _ _ _ Hrun). lia.
Qed.

(** Every fault of the loop is a fault of some iteration. *)
Lemma for_range_fault P Q body lo hi s f :
  P lo s ->
  (forall j s, lo <= j < hi -> P j s -> outcome (P (j + 1)) Q (body j s)) ->
  for_range lo hi body s = Undefined f -> Q f.
Proof.
  intros HP Hbody Hrun.
  destruct (Z.le_gt_cases lo hi) as [Hle|Hgt].
  - pose proof (for_range_outcome P Q body lo hi s Hle HP Hbody) as H.
    by rewrite Hrun in H.
  - rewrite for_range_empty in Hrun by lia. done.
Qed.
End Loops.

Lemma bind_Ok {A B : Type} (m : result A) (f : A -> result B) (b : B) :
  (a ← m; f a) = Ok b -> exists a, m = Ok a /\ f a = Ok b.
Proof. destruct m as [a|e]; simpl; [eauto|done]. Qed.

Lemma bind_Undefined {A B : Type} (m : result A) (f : A -> result B) e :
  (a ← m; f a) = Undefined e ->
  m = Undefined e \/ exists a, m = Ok a /\ f a = Undefined e.
Proof. destruct m as [a|e']; simpl; [eauto|]. intros [= ->]. by left. Qed.

Lemma in_array_spec i : in_array i = true <-> 0 <= i < max_wapl_filt_order.
Proof. unfold in_array. rewrite andb_true_iff, Z.leb_le, Z.ltb_lt. done. Qed.

Section Arrays.
Variable oob : Z -> fault.
Implicit Types (a : list float) (i : Z) (v : float).

Lemma array_read_Ok a i v :
  array_read oob a i = Ok v <->
  0 <= i < max_wapl_filt_order /\ a !! Z.to_nat i = Some v.
Proof.
  unfold array_read. destruct (in_array i) eqn:Hi.
  - apply in_array_spec in Hi.
    destruct (a !! Z.to_nat i) as [x|]; split;
      try (intros [= ->]; done); try (intros [_ [= ->]]; done);
      try (intros [_ ?]; done).
  - split; [done|]. intros [Hr _]. apply in_array_spec in Hr. congruence.
Qed.

Lemma array_read_fault a i f :
  array_read oob a i = Undefined f ->
  f = oob i /\
  (~ 0 <= i < max_wapl_filt_order \/ (length a <= Z.to_nat i)%nat).
Proof.
  unfold array_read. destruct (in_array i) eqn:Hi.
  - destruct (a !! Z.to_nat i) eqn:Hl; [done|].
    intros [= <-]. split; [done|]. right. by apply lookup_ge_None.
  - intros [= <-]. split; [done|]. left. rewrite <- in_array_spec. congruence.
Qed.

Lemma array_write_Ok a i v a' :
  array_write oob a i v = Ok a' <->
  0 <= i < max_wapl_filt_order /\ (Z.to_nat i < length a)%nat /\
  a' = <[Z.to_nat i := v]> a.
Proof.
  unfold array_write. destruct (in_array i) eqn:Hi.
  - apply in_array_spec in Hi. case_decide.
    + split; [by intros [= <-]|]. by intros (_ & _ & ->).
    + split; [done|]. by intros (_ & ? & _).
  - split; [done|]. intros [Hr _]. apply in_array_spec in Hr. congruence.
Qed.

Lemma array_write_fault a i v f :
  array_write oob a i v = Undefined f ->
  f = oob i /\
  (~ 0 <= i < max_wapl_filt_order \/ (length a <= Z.to_nat i)%nat).
Proof.
  unfold array_write. destruct (in_array i) eqn:Hi.
  - case_decide; [done|]. intros [= <-]. split; [done|]. right. lia.
  - intros [= <-]. split; [done|]. left. rewrite <- in_array_spec. congruence.
Qed.

Lemma array_read_in_range a i :
  0 <= i < max_wapl_filt_order ->
  length a = Z.to_nat max_wapl_filt_order ->
  exists v, array_read oob a i = Ok v /\ a !! Z.to_nat i = Some v.
Proof.
  intros Hi Hlen.
  destruct (lookup_lt_is_Some_2 a (Z.to_nat i)) as [v Hv]; [lia|].
  exists v. split; [|done]. by apply array_read_Ok.
Qed.

Lemma array_write_in_range a i v :
  0 <= i < max_wapl_filt_order ->
  length a = Z.to_nat max_wapl_filt_order ->
  array_write oob a i v = Ok (<[Z.to_nat i := v]> a).
Proof.
  intros Hi Hlen. apply array_write_Ok. repeat split; try lia.
Qed.
End Arrays.

Lemma length_indeterminate_array junk :
  length (indeterminate_array junk) = Z.to_nat max_wapl_filt_order.
Proof. unfold indeterminate_array. by rewrite length_map, length_seq. Qed.

Lemma well_formed_new junk_k junk_t : well_formed (waplns_new junk_k junk_t).
Proof.
  split; [done|].
  split; unfold waplns_new; cbn [k_ t_]; apply length_indeterminate_array.
Qed.

(* ===================================================================== *)
(** ** The derived-scale calculator *)
(* ===================================================================== *)

Lemma lattice_step_butterfly a b k :
  lattice_step a b (to_double k) = butterfly a b k.
Proof. reflexivity. Qed.

Lemma apply_D_alter_t_allpass io t lam :
  apply_D_alter_t io t lam = allpass lam io t.
Proof. reflexivity. Qed.

Lemma apply_D_keep_t_allpass io t lam :
  apply_D_keep_t io t lam = fst (allpass lam io t).
Proof. reflexivity. Qed.

(** The loop of [precompute_derived_params] from stage [i] on is the
    recurrence over the coefficients stored from [i] on. *)
Lemma precompute_loop lam w n : forall i a b r,
  0 <= i ->
  for_steps n i (precompute_body (to_double (fneg lam)) w) (a, b) = Ok r ->
  r = steady_state lam (take n (drop (Z.to_nat i) (k_ w))) a b.
Proof.
  induction n as [|n IH]; intros i a b r Hi Hrun.
  - simpl in Hrun. injection Hrun as <-. by rewrite take_0.
  - simpl in Hrun. apply bind_Ok in Hrun as (ab' & Hbody & Hrest).
    unfold precompute_body in Hbody.
    apply bind_Ok in Hbody as (k & Hk & Hstep).
    apply array_read_Ok in Hk as [_ Hk].
    rewrite (drop_S _ _ _ Hk). cbn [take steady_state].
    injection Hstep as <-. rewrite lattice_step_butterfly in Hrest.
    destruct (butterfly a (dmul b (to_double (fneg lam))) k) as [a' b'].
    apply IH in Hrest; [|lia].
    by replace (Z.to_nat (i + 1)) with (Datatypes.S (Z.to_nat i)) in Hrest by lia.
Qed.

Lemma precompute_derived_params_Ok w w' :
  precompute_derived_params w = Ok w' ->
  w' = set_scales w f1
         (to_float (ddiv d1
            (steady_state_gain (lambda_ w) (stages (order_ w) (k_ w))))).
Proof.
  unfold precompute_derived_params. intros Hrun.
  apply bind_Ok in Hrun as ([a b] & Hloop & [= <-]).
  unfold for_range in Hloop. apply precompute_loop in Hloop; [|done].
  rewrite Z.sub_0_r in Hloop. simpl in Hloop. rewrite drop_0 in Hloop.
  unfold steady_state_gain, stages. by rewrite <- Hloop.
Qed.

Lemma precompute_derived_params_total w :
  order_ w <= max_wapl_filt_order -> sized w ->
  exists w', precompute_derived_params w = Ok w'.
Proof.
  intros Hord [Hk _]. unfold precompute_derived_params.
  destruct (Z.le_gt_cases 0 (order_ w)) as [Hpos|Hneg];
    [|rewrite for_range_empty by lia; by eexists].
  destruct (for_range_total (fun _ _ => True)
              (precompute_body (to_double (fneg (lambda_ w))) w)
              0 (order_ w) (d1, d1)) as (ab & -> & _); [lia|done| |by eexists].
  intros j [a b] Hj _. unfold precompute_body.
  destruct (array_read_in_range k_out_of_range (k_ w) j) as (v & Hv & _);
    [lia|done|].
  unfold read_k. rewrite Hv. simpl. eauto.
Qed.

(* ===================================================================== *)
(** ** The parameter store *)
(* ===================================================================== *)

(** The copy loop stores the first [n] supplied coefficients and leaves
    the rest of [k_] and every other member alone. *)
Lemma copy_loop_total newk w n :
  n <= max_wapl_filt_order ->
  (Z.to_nat n <= length newk)%nat ->
  length (k_ w) = Z.to_nat max_wapl_filt_order ->
  exists k',
    for_range 0 n (copy_body newk) w = Ok (set_k w k') /\
    length k' = Z.to_nat max_wapl_filt_order /\
    (forall m, (m < Z.to_nat n)%nat -> k' !! m = newk !! m) /\
    (forall m, (Z.to_nat n <= m)%nat -> k' !! m = k_ w !! m).
Proof.
  intros Hn Hnewk Hlen.
  destruct (Z.le_gt_cases n 0) as [Hle|Hgt].
  { exists (k_ w). rewrite for_range_empty by done.
    destruct w. split; [done|]. split; [done|].
    split; [|done]. intros m Hm. lia. }
  destruct (for_range_total
    (fun j w' => exists k', w' = set_k w k' /\
       length k' = Z.to_nat max_wapl_filt_order /\
       (forall m, Z.of_nat m < j -> k' !! m = newk !! m) /\
       (forall m, j <= Z.of_nat m -> k' !! m = k_ w !! m))
    (copy_body newk) 0 n w) as (w' & Hrun & k' & -> & Hlen' & Hlo & Hhi).
  - lia.
  - exists (k_ w). destruct w. split; [done|]. split; [done|].
    split; [|done]. intros m Hm. lia.
  - intros j w0 Hj (k0 & -> & Hlen0 & Hlo & Hhi). unfold copy_body, newk_read.
    replace (0 <=? j) with true by lia.
    destruct (lookup_lt_is_Some_2 newk (Z.to_nat j)) as [v Hv]; [lia|].
    rewrite Hv. simpl. unfold write_k. cbn [k_ set_k].
    rewrite array_write_in_range by (done || lia). simpl.
    eexists. split; [|exists (<[Z.to_nat j:=v]> k0); split; [reflexivity|]].
    { reflexivity. }
    split; [by rewrite length_insert|]. split; intros m Hm.
    + destruct (decide (m = Z.to_nat j)) as [->|Hne].
      * rewrite list_lookup_insert_eq by lia. done.
      * rewrite list_lookup_insert_ne by done. apply Hlo. lia.
    + rewrite list_lookup_insert_ne by lia. apply Hhi. lia.
  - exists k'. split; [done|]. split; [done|].
    split; intros m Hm; [apply Hlo|apply Hhi]; lia.
Qed.

(** The zeroing loop clears [t_[lo .. hi)] and leaves the rest of [t_] and
    every other member alone. *)
Lemma zero_loop_total w lo hi :
  (lo < hi -> 0 <= lo) ->
  hi <= max_wapl_filt_order ->
  length (t_ w) = Z.to_nat max_wapl_filt_order ->
  exists t',
    for_range lo hi zero_body w = Ok (set_t w t') /\
    length t' = Z.to_nat max_wapl_filt_order /\
    (forall m, lo <= Z.of_nat m < hi -> t' !! m = Some f0) /\
    (forall m, ~ lo <= Z.of_nat m < hi -> t' !! m = t_ w !! m).
Proof.
  intros Hlo Hhi Hlen.
  destruct (Z.le_gt_cases hi lo) as [Hle|Hgt].
  { exists (t_ w). rewrite for_range_empty by done.
    destruct w. split; [done|]. split; [done|].
    split; [|done]. intros m Hm. lia. }
  destruct (for_range_total
    (fun j w' => exists t', w' = set_t w t' /\
       length t' = Z.to_nat max_wapl_filt_order /\
       (forall m, lo <= Z.of_nat m < j -> t' !! m = Some f0) /\
       (forall m, ~ lo <= Z.of_nat m < j -> t' !! m = t_ w !! m))
    zero_body lo hi w) as (w' & Hrun & t' & -> & Hlen' & Hin & Hout).
  - lia.
  - exists (t_ w). destruct w. split; [done|]. split; [done|].
    split; [|done]. intros m Hm. lia.
  - intros j w0 Hj (t0 & -> & Hlen0 & Hin & Hout). unfold zero_body, write_t.
    cbn [t_ set_t].
    rewrite array_write_in_range by (done || lia). simpl.
    eexists. split; [reflexivity|].
    exists (<[Z.to_nat j:=f0]> t0). split; [reflexivity|].
    split; [by rewrite length_insert|]. split; intros m Hm.
    + destruct (decide (m = Z.to_nat j)) as [->|Hne].
      * rewrite list_lookup_insert_eq by lia. done.
      * rewrite list_lookup_insert_ne by done. apply Hin. lia.
    + rewrite list_lookup_insert_ne by lia. apply Hout. lia.
  - exists t'. done.
Qed.

(** The feedback loop of [set_params] from stage [i] on is the look-ahead
    pass over the coefficients and delays stored from [i] on. *)
Lemma feedback_loop lam w n : forall i nua nub r,
  0 <= i ->
  for_steps n i (feedback_body lam w) (nua, nub) = Ok r ->
  r = lookahead lam (take n (drop (Z.to_nat i) (k_ w)))
                    (take n (drop (Z.to_nat i) (t_ w))) nua nub.
Proof.
  induction n as [|n IH]; intros i nua nub r Hi Hrun.
  - simpl in Hrun. injection Hrun as <-. by rewrite !take_0.
  - simpl in Hrun. apply bind_Ok in Hrun as (nu' & Hbody & Hrest).
    unfold feedback_body in Hbody.
    apply bind_Ok in Hbody as (k & Hk & Hbody).
    apply bind_Ok in Hbody as (t & Ht & Hstep).
    apply array_read_Ok in Hk as [_ Hk]. apply array_read_Ok in Ht as [_ Ht].
    rewrite (drop_S _ _ _ Hk), (drop_S _ _ _ Ht). cbn [take lookahead].
    injection Hstep as <-.
    rewrite lattice_step_butterfly, apply_D_keep_t_allpass in Hrest.
    destruct (allpass lam nub t) as [nub' nt]. cbn [fst] in Hrest.
    destruct (butterfly nua nub' k) as [nua2 nub2].
    apply IH in Hrest; [|lia].
    by replace (Z.to_nat (i + 1)) with (Datatypes.S (Z.to_nat i)) in Hrest by lia.
Qed.

Lemma feedback_loop_total lam w :
  order_ w <= max_wapl_filt_order -> sized w ->
  for_range 0 (order_ w) (feedback_body lam w) (d0, d0) =
  Ok (lookahead lam (stages (order_ w) (k_ w)) (stages (order_ w) (t_ w))
        d0 d0).
Proof.
  intros Hord [Hk Ht].
  destruct (Z.le_gt_cases 0 (order_ w)) as [Hpos|Hneg].
  2:{ rewrite for_range_empty by lia. unfold stages.
      by replace (Z.to_nat (order_ w)) with O by lia. }
  destruct (for_range_total (fun _ _ => True) (feedback_body lam w)
              0 (order_ w) (d0, d0)) as (r & Hrun & _); [lia|done| |].
  - intros j [nua nub] Hj _. unfold feedback_body, read_k, read_t.
    destruct (array_read_in_range k_out_of_range (k_ w) j) as (k & -> & _);
      [lia|done|].
    destruct (array_read_in_range t_out_of_range (t_ w) j) as (t & -> & _);
      [lia|done|].
    simpl. eauto.
  - rewrite Hrun. f_equal. unfold for_range in Hrun.
    apply feedback_loop in Hrun; [|done].
    rewrite Z.sub_0_r in Hrun. simpl in Hrun. by rewrite !drop_0 in Hrun.
Qed.

(** [set_params] returns whenever the caller's array holds the
    coefficients it is asked to copy and the zeroing loop starts inside
    [t_]. *)
Lemma set_params_total lam ord newk w :
  sized w ->
  (order_ w < Z.min ord max_wapl_filt_order -> 0 <= order_ w) ->
  (Z.to_nat (Z.min ord max_wapl_filt_order) <= length newk)%nat ->
  exists w', set_params lam ord newk w = Ok w' /\
             set_params_post lam ord newk w w'.
Proof.
  intros [Hk Ht] Hzero Hnewk. unfold set_params.
  set (n := Z.min ord max_wapl_filt_order) in *.
  assert (n <= max_wapl_filt_order) as Hn by lia.
  destruct (copy_loop_total newk w n Hn Hnewk Hk)
    as (k' & -> & Hlenk & Hknew & Hkold).
  cbn [mbind result_bind order_ set_k].
  destruct (zero_loop_total (set_k w k') (order_ w) n Hzero Hn Ht)
    as (t' & -> & Hlent & Htnew & Htold).
  cbn [mbind result_bind].
  set (w3 := set_lambda_order (set_t (set_k w k') t') lam n).
  assert (sized w3) as Hsz3 by (by split).
  destruct (precompute_derived_params_total w3 Hn Hsz3) as (w4 & Hpre).
  rewrite Hpre. apply precompute_derived_params_Ok in Hpre. subst w4.
  cbn [mbind result_bind].
  rewrite feedback_loop_total by (done || by split).
  cbn [mbind result_bind]. eexists. split; [reflexivity|].
  split; try done.
Qed.

(** Conversely, a call that returns met these conditions. *)
Lemma set_params_Ok_inv lam ord newk w w' :
  sized w ->
  set_params lam ord newk w = Ok w' ->
  (order_ w < Z.min ord max_wapl_filt_order -> 0 <= order_ w) /\
  (Z.to_nat (Z.min ord max_wapl_filt_order) <= length newk)%nat.
Proof.
  intros [Hk Ht] Hrun. unfold set_params in Hrun.
  set (n := Z.min ord max_wapl_filt_order) in *.
  apply bind_Ok in Hrun as (w1 & Hcopy & Hrun).
  apply bind_Ok in Hrun as (w2 & Hzero & _).
  assert (Z.to_nat n <= length newk)%nat as Hnewk.
  { destruct (Z.le_gt_cases n 0) as [|Hpos]; [lia|].
    destruct (for_range_Ok_iter _ _ _ _ _ (n - 1) Hcopy) as (sj & sj' & Hbody);
      [lia|].
    unfold copy_body in Hbody. apply bind_Ok in Hbody as (v & Hv & _).
    unfold newk_read in Hv. destruct (0 <=? n - 1); [|done].
    destruct (newk !! Z.to_nat (n - 1)) eqn:Hl; [|done].
    apply lookup_lt_Some in Hl. lia. }
  split; [|done]. intros Hlt.
  destruct (copy_loop_total newk w n ltac:(lia) Hnewk Hk) as (k' & Hcopy' & _).
  rewrite Hcopy' in Hcopy. injection Hcopy as <-. cbn [order_ set_k] in Hzero.
  destruct (for_range_Ok_iter _ _ _ _ _ (order_ w) Hzero) as (sj & sj' & Hbody);
    [lia|].
  unfold zero_body, write_t in Hbody. apply bind_Ok in Hbody as (t' & Hw & _).
  apply array_write_Ok in Hw. lia.
Qed.

Lemma set_params_Ok lam ord newk w w' :
  sized w ->
  set_params lam ord newk w = Ok w' ->
  set_params_post lam ord newk w w'.
Proof.
  intros Hsz Hrun.
  destruct (set_params_Ok_inv _ _ _ _ _ Hsz Hrun) as [Hzero Hnewk].
  destruct (set_params_total lam ord newk w Hsz Hzero Hnewk) as (w0 & Hrun' & ?).
  congruence.
Qed.

(* ===================================================================== *)
(** ** The recurrence engine *)
(* ===================================================================== *)

Lemma set_t_id w : set_t w (t_ w) = w.
Proof. by destruct w. Qed.

Lemma reset_state_total w :
  order_ w <= max_wapl_filt_order -> sized w ->
  exists t',
    reset_state w = Ok (set_next_u (set_t w t') f0) /\
    length t' = Z.to_nat max_wapl_filt_order /\
    (forall m, Z.of_nat m < order_ w -> t' !! m = Some f0) /\
    (forall m, order_ w <= Z.of_nat m -> t' !! m = t_ w !! m).
Proof.
  intros Hord [_ Ht]. unfold reset_state.
  destruct (zero_loop_total w 0 (order_ w) ltac:(lia) Hord Ht)
    as (t' & -> & Hlen & Hin & Hout).
  exists t'. split; [done|]. split; [done|].
  split; intros m Hm; [apply Hin|apply Hout]; lia.
Qed.

(** The loop of [x_was] from stage [i] on is the recurrence over the
    coefficients and delays stored from [i] on; the advanced delays
    replace [t_[i .. i+n)]. *)
Lemma x_was_loop lam n : forall i a b nua nub w ts a' b' nua' nub',
  0 <= i -> i + Z.of_nat n <= max_wapl_filt_order -> sized w ->
  recurrence lam (take n (drop (Z.to_nat i) (k_ w)))
                 (take n (drop (Z.to_nat i) (t_ w))) a b nua nub
    = (ts, (a', b', nua', nub')) ->
  for_steps n i (x_was_body lam) (Locals a b nua nub w) =
  Ok (Locals a' b' nua' nub'
        (set_t w (take (Z.to_nat i) (t_ w) ++ ts ++
                  drop (Z.to_nat i + n) (t_ w)))).
Proof.
  induction n as [|n IH]; intros i a b nua nub w ts a' b' nua' nub'
    Hi Hn [Hk Ht] Hrec.
  - rewrite !take_0 in Hrec. injection Hrec as <- <- <- <- <-.
    cbn [for_steps app]. rewrite Nat.add_0_r, take_drop, set_t_id. done.
  - destruct (lookup_lt_is_Some_2 (k_ w) (Z.to_nat i)) as [kv Hkv]; [lia|].
    destruct (lookup_lt_is_Some_2 (t_ w) (Z.to_nat i)) as [tv Htv]; [lia|].
    rewrite (drop_S _ _ _ Hkv), (drop_S _ _ _ Htv) in Hrec.
    cbn [take recurrence] in Hrec.
    cbn [for_steps x_was_body]. unfold read_k, read_t.
    assert (array_read k_out_of_range (k_ w) i = Ok kv) as ->
      by (apply array_read_Ok; split; [lia|done]).
    assert (array_read t_out_of_range (t_ w) i = Ok tv) as ->
      by (apply array_read_Ok; split; [lia|done]).
    cbn [mbind result_bind]. rewrite apply_D_alter_t_allpass.
    destruct (allpass lam b tv) as [b1 nt].
    unfold write_t. rewrite array_write_in_range by (done || lia).
    cbn [mbind result_bind t_ set_t].
    assert (array_read t_out_of_range (<[Z.to_nat i:=nt]> (t_ w)) i = Ok nt)
      as -> by (apply array_read_Ok; split;
                [lia|apply list_lookup_insert_eq; lia]).
    cbn [mbind result_bind].
    rewrite apply_D_keep_t_allpass, !lattice_step_butterfly.
    destruct (allpass lam nub nt) as [nub1 nt']. cbn [fst].
    destruct (butterfly a b1 kv) as [a2 b2].
    destruct (butterfly nua nub1 kv) as [nua2 nub2].
    destruct (recurrence lam _ _ a2 b2 nua2 nub2) as [ts2 acc] eqn:Hrec2.
    injection Hrec as <- ->.
    set (w1 := set_t w (<[Z.to_nat i:=nt]> (t_ w))).
    specialize (IH (i + 1) a2 b2 nua2 nub2 w1 ts2 a' b' nua' nub').
    replace (Z.to_nat (i + 1)) with (Datatypes.S (Z.to_nat i)) in IH by lia.
    cbn [mbind result_bind].
    rewrite IH; clear IH.
    + f_equal. f_equal. subst w1. cbn [t_ set_t]. unfold set_t. f_equal.
      rewrite (take_S_r _ _ nt) by (apply list_lookup_insert_eq; lia).
      rewrite take_insert_ge by lia.
      rewrite drop_insert_lt by lia.
      rewrite <- app_assoc. cbn [app].
      by replace (Datatypes.S (Z.to_nat i) + n)%nat
        with (Z.to_nat i + Datatypes.S n)%nat by lia.
    + lia.
    + lia.
    + subst w1. split; cbn [k_ t_ set_t]; [done|by rewrite length_insert].
    + subst w1. cbn [k_ t_ set_t]. rewrite drop_insert_lt by lia. done.
Qed.

(** [x_was] returns what section 4.3 describes. *)
Lemma x_was_total x w :
  order_ w <= max_wapl_filt_order -> sized w ->
  x_was x w = Ok (x_was_spec x w).
Proof.
  intros Hord Hsz. unfold x_was, x_was_spec, stages, for_range.
  rewrite Z.sub_0_r.
  set (a := dmul _ _).
  destruct (recurrence _ _ _ a a d0 d0) as [ts [[[a' b'] nua'] nub']] eqn:Hrec.
  pose proof (x_was_loop (lambda_ w) (Z.to_nat (order_ w)) 0 a a d0 d0 w
                ts a' b' nua' nub') as Hloop.
  cbn [Z.to_nat] in Hloop. rewrite !drop_0 in Hloop.
  rewrite Hloop; [|lia|unfold max_wapl_filt_order in *; lia|done|done].
  cbn [mbind result_bind loc_this loc_nua take app Nat.add]. done.
Qed.

Lemma recurrence_length lam : forall ks ts a b nua nub,
  length (fst (recurrence lam ks ts a b nua nub)) =
  Nat.min (length ks) (length ts).
Proof.
  induction ks as [|k ks IH]; intros [|t ts] a b nua nub; try done.
  cbn [recurrence].
  destruct (allpass lam b t) as [b1 nt].
  destruct (allpass lam nub nt) as [nub1 nt'].
  destruct (butterfly a b1 k) as [a2 b2].
  destruct (butterfly nua nub1 k) as [nua2 nub2].
  specialize (IH ts a2 b2 nua2 nub2).
  destruct (recurrence lam ks ts a2 b2 nua2 nub2) as [ts2 acc].
  simpl in *. by rewrite IH.
Qed.

(** One iteration of the loop of [x_was] writes one cell of [t_], its own,
    and nothing else of the object. *)
Lemma x_was_body_one_write lam i s s' :
  x_was_body lam i s = Ok s' ->
  0 <= i < max_wapl_filt_order /\
  exists v,
    loc_this s' = set_t (loc_this s) (<[Z.to_nat i:=v]> (t_ (loc_this s))).
Proof.
  destruct s as [a b nua nub w]. cbn [x_was_body loc_this]. intros Hrun.
  apply bind_Ok in Hrun as (k & _ & Hrun).
  apply bind_Ok in Hrun as (t & _ & Hrun).
  destruct (apply_D_alter_t b t lam) as [b1 nt].
  apply bind_Ok in Hrun as (w1 & Hw & Hrun).
  apply bind_Ok in Hrun as (t1 & _ & Hrun).
  destruct (lattice_step a b1 (to_double k)) as [a2 b2].
  destruct (lattice_step nua _ (to_double k)) as [nua2 nub2].
  injection Hrun as <-. cbn [loc_this].
  unfold write_t in Hw. apply bind_Ok in Hw as (t' & Hw & [= <-]).
  apply array_write_Ok in Hw as (Hi & _ & ->). split; [done|]. by exists nt.
Qed.

(** What [x_was] leaves alone. *)
Lemma x_was_frame x w :
  order_ w <= max_wapl_filt_order -> sized w ->
  exists w',
    x_was x w = Ok w' /\ sized w' /\
    order_ w' = order_ w /\ lambda_ w' = lambda_ w /\ k_ w' = k_ w /\
    s1_ w' = s1_ w /\ s2_ w' = s2_ w /\
    (order_ w <= 0 ->
       t_ w' = t_ w /\
       next_u_ w' = to_float (dmul d0 (to_double (s2_ w)))).
Proof.
  intros Hord Hsz. exists (x_was_spec x w).
  split; [by apply x_was_total|]. unfold x_was_spec.
  set (a0 := dmul _ _).
  pose proof (recurrence_length (lambda_ w) (stages (order_ w) (k_ w))
                (stages (order_ w) (t_ w)) a0 a0 d0 d0) as Hlen.
  destruct (recurrence _ _ _ a0 a0 d0 d0) as [ts [[[a b] nua] nub]] eqn:Hrec.
  cbn [fst] in Hlen. unfold stages in Hlen, Hrec.
  rewrite !length_take in Hlen. destruct Hsz as [Hk Ht].
  unfold set_next_u, set_t. cbn [order_ lambda_ k_ s1_ s2_ t_ next_u_].
  split.
  { split; cbn [k_ t_]; [done|]. rewrite length_app, length_drop. lia. }
  repeat (split; [done|]). intros Hle.
  replace (Z.to_nat (order_ w)) with O in * by lia.
  rewrite !take_0 in Hrec. injection Hrec as <- _ _ <- _. done.
Qed.

(** The iterator overload fills [temp] with the first [n] elements of the
    caller's sequence. *)
Lemma fill_loop_total junk it n :
  n <= max_wapl_filt_order ->
  (Z.to_nat n <= length it)%nat ->
  exists temp',
    for_range 0 n fill_body (indeterminate_array junk, it)
      = Ok (temp', drop (Z.to_nat n) it) /\
    length temp' = Z.to_nat max_wapl_filt_order /\
    (forall m, (m < Z.to_nat n)%nat -> temp' !! m = it !! m).
Proof.
  intros Hn Hit.
  destruct (Z.le_gt_cases n 0) as [Hle|Hgt].
  { exists (indeterminate_array junk). rewrite for_range_empty by done.
    replace (Z.to_nat n) with O by lia. rewrite drop_0.
    split; [done|]. split; [apply length_indeterminate_array|].
    intros m Hm. lia. }
  destruct (for_range_total
    (fun j s => length (fst s) = Z.to_nat max_wapl_filt_order /\
       snd s = drop (Z.to_nat j) it /\
       (forall m, Z.of_nat m < j -> fst s !! m = it !! m))
    fill_body 0 n (indeterminate_array junk, it))
    as ([temp' rest] & Hrun & Hlen & Hrest & Hlo).
  - lia.
  - cbn [fst snd]. split; [apply length_indeterminate_array|].
    split; [done|]. intros m Hm. lia.
  - intros j [temp rest] Hj (Hlen & Hrest & Hlo). cbn [fst snd] in *.
    destruct (lookup_lt_is_Some_2 it (Z.to_nat j)) as [v Hv]; [lia|].
    subst rest. rewrite (drop_S _ _ _ Hv). cbn [fill_body].
    rewrite array_write_in_range by (done || lia).
    cbn [mbind result_bind]. eexists. split; [reflexivity|]. cbn [fst snd].
    split; [by rewrite length_insert|].
    split; [by replace (Z.to_nat (j + 1)) with (Datatypes.S (Z.to_nat j)) by lia|].
    intros m Hm. destruct (decide (m = Z.to_nat j)) as [->|Hne].
    + rewrite list_lookup_insert_eq by lia. done.
    + rewrite list_lookup_insert_ne by done. apply Hlo. lia.
  - cbn [fst snd] in *. subst rest. exists temp'. split; [done|].
    split; [done|]. intros m Hm. apply Hlo. lia.
Qed.

Lemma set_params_post_clamped lam ord newk it w w' :
  (forall m, (m < Z.to_nat (Z.min ord max_wapl_filt_order))%nat ->
     newk !! m = it !! m) ->
  set_params_post lam (Z.min ord max_wapl_filt_order) newk w w' ->
  set_params_post lam ord it w w'.
Proof.
  intros Hsame [Ho Hl H1 H2 Hu Hsz Hkn Hko Htn Hto].
  assert (Z.min (Z.min ord max_wapl_filt_order) max_wapl_filt_order
          = Z.min ord max_wapl_filt_order) as Hmin by lia.
  rewrite Hmin in Ho.
  split; try done.
  intros m Hm. rewrite Hkn by done. apply Hsame. by rewrite <- Ho.
Qed.

Lemma set_params_iter_total junk lam ord it w :
  sized w ->
  (order_ w < Z.min ord max_wapl_filt_order -> 0 <= order_ w) ->
  (Z.to_nat (Z.min ord max_wapl_filt_order) <= length it)%nat ->
  exists w', set_params_iter junk lam ord it w = Ok w' /\
             set_params_post lam ord it w w'.
Proof.
  intros Hsz Hzero Hit. unfold set_params_iter.
  set (n := Z.min ord max_wapl_filt_order) in *.
  destruct (fill_loop_total junk it n ltac:(lia) Hit)
    as (temp' & -> & Hlen & Hsame).
  cbn [mbind result_bind fst].
  assert (Z.min n max_wapl_filt_order = n) as Hmin by lia.
  destruct (set_params_total lam n temp' w Hsz) as (w' & Hrun & Hpost).
  - by rewrite Hmin.
  - rewrite Hmin, Hlen. lia.
  - exists w'. split; [done|]. by apply (set_params_post_clamped _ _ temp').
Qed.

Lemma set_params_iter_Ok junk lam ord it w w' :
  set_params_iter junk lam ord it w = Ok w' ->
  exists temp, set_params lam (Z.min ord max_wapl_filt_order) temp w = Ok w'.
Proof.
  unfold set_params_iter. intros Hrun.
  apply bind_Ok in Hrun as (s & _ & Hrun). eauto.
Qed.

(** *** Filters reached from the constructor *)

Lemma reached_new junk_k junk_t : reached (waplns_new junk_k junk_t).
Proof.
  split; try done.
Qed.

Lemma set_params_post_reached lam ord newk w w' :
  set_params_post lam ord newk w w' -> reached w'.
Proof.
  intros [Ho Hl H1 H2 Hu Hsz _ _ _ _]. split; [done|lia|done| |].
  - intros Hle. rewrite H2. unfold stages.
    by replace (Z.to_nat (order_ w')) with O by lia.
  - intros Hle. rewrite Hu, H2. unfold stages.
    by replace (Z.to_nat (order_ w')) with O by lia.
Qed.

Lemma reset_state_frame w :
  order_ w <= max_wapl_filt_order -> sized w ->
  exists w',
    reset_state w = Ok w' /\ sized w' /\
    order_ w' = order_ w /\ lambda_ w' = lambda_ w /\ k_ w' = k_ w /\
    s1_ w' = s1_ w /\ s2_ w' = s2_ w /\ next_u_ w' = f0 /\
    (forall m, Z.of_nat m < order_ w -> t_ w' !! m = Some f0) /\
    (forall m, order_ w <= Z.of_nat m -> t_ w' !! m = t_ w !! m).
Proof.
  intros Hord Hsz.
  destruct (reset_state_total w Hord Hsz) as (t' & -> & Hlen & Hin & Hout).
  eexists. split; [reflexivity|]. destruct Hsz as [Hk Ht].
  split; [by split|]. done.
Qed.

Lemma do_call_reached c w w' :
  reached w -> do_call c w = Ok w' -> reached w'.
Proof.
  intros [Hsz Hord H1 H2 Hu] Hrun.
  destruct c as [lam ord newk|junk lam ord it| |x]; cbn [do_call] in Hrun.
  - eapply set_params_post_reached, set_params_Ok; done.
  - apply set_params_iter_Ok in Hrun as (temp & Hrun).
    eapply set_params_post_reached, set_params_Ok; done.
  - destruct (reset_state_frame w Hord Hsz)
      as (w0 & Hrun' & Hsz' & Ho & _ & _ & Hs1 & Hs2 & Hnu & _).
    assert (w0 = w') as -> by congruence.
    split; [done|lia|congruence| |done].
    intros Hle. rewrite Hs2. apply H2. lia.
  - destruct (x_was_frame x w Hord Hsz)
      as (w0 & Hrun' & Hsz' & Ho & _ & _ & Hs1 & Hs2 & Hnu).
    assert (w0 = w') as -> by congruence.
    split; [done|lia|congruence| |].
    + intros Hle. rewrite Hs2. apply H2. lia.
    + intros Hle. destruct Hnu as [_ ->]; [lia|]. rewrite H2 by lia. done.
Qed.

Lemma run_app h1 h2 w :
  run (h1 ++ h2) w = (w' ← run h1 w; run h2 w').
Proof.
  revert w. induction h1 as [|c h1 IH]; intros w; [done|].
  cbn [app run]. destruct (do_call c w) as [w1|f]; [|done].
  cbn [mbind result_bind]. apply IH.
Qed.

Lemma run_reached h : forall w w',
  reached w -> run h w = Ok w' -> reached w'.
Proof.
  induction h as [|c h IH]; intros w w' Hre Hrun.
  - by injection Hrun as <-.
  - cbn [run] in Hrun. apply bind_Ok in Hrun as (w1 & Hc & Hrun).
    eapply IH; [|done]. by eapply do_call_reached.
Qed.

(** Any number of [x_was] calls returns and keeps the order. *)
Lemma run_x_was xs : forall w,
  reached w ->
  exists w', run (map XWas xs) w = Ok w' /\ reached w' /\
             order_ w' = order_ w.
Proof.
  induction xs as [|x xs IH]; intros w Hre; [by exists w|].
  cbn [map run do_call].
  destruct (x_was_frame x w (re_order _ Hre) (re_sized _ Hre))
    as (w1 & Hrun & _ & Ho & _).
  rewrite Hrun. cbn [mbind result_bind].
  assert (reached w1) as Hre1 by (by apply (do_call_reached (XWas x) w)).
  destruct (IH w1 Hre1) as (w' & Hrun' & Hre' & Ho').
  exists w'. split; [done|]. split; [done|]. congruence.
Qed.

(** The outcome of [set_params] is a function of the coefficients it is
    asked to copy. *)
Lemma set_params_post_unique lam ord newk1 newk2 w w1 w2 :
  (forall m, (m < Z.to_nat (Z.min ord max_wapl_filt_order))%nat ->
     newk1 !! m = newk2 !! m) ->
  set_params_post lam ord newk1 w w1 ->
  set_params_post lam ord newk2 w w2 ->
  w1 = w2.
Proof.
  intros Hsame [Ho1 Hl1 Hs1 Hs2 Hu1 _ Hkn1 Hko1 Htn1 Hto1]
               [Ho2 Hl2 Ht1 Ht2 Hu2 _ Hkn2 Hko2 Htn2 Hto2].
  assert (order_ w1 = order_ w2) as Ho by congruence.
  assert (k_ w1 = k_ w2) as Hk.
  { apply list_eq. intros m.
    destruct (decide (m < Z.to_nat (order_ w1))%nat) as [Hlt|Hge].
    - rewrite Hkn1, Hkn2 by lia. apply Hsame. lia.
    - rewrite Hko1, Hko2 by lia. done. }
  assert (t_ w1 = t_ w2) as Ht.
  { apply list_eq. intros m.
    destruct (decide (order_ w <= Z.of_nat m < order_ w1)) as [Hin|Hout].
    - rewrite Htn1, Htn2 by lia. done.
    - rewrite Hto1, Hto2 by lia. done. }
  assert (s2_ w1 = s2_ w2) as H2 by congruence.
  assert (next_u_ w1 = next_u_ w2) as Hu by congruence.
  destruct w1, w2. cbn in *. congruence.
Qed.

(** *** Inactive delays are never read

    Whatever a filter holds in the delays of inactive stages, every call
    returns the same way and leaves the same observable filter. *)

Lemma stages_lookup_eq n (a b : list float) :
  stages n a = stages n b ->
  forall m, (m < Z.to_nat n)%nat -> a !! m = b !! m.
Proof.
  unfold stages. intros Heq m Hm.
  rewrite <- (lookup_take_lt a (Z.to_nat n) m Hm).
  rewrite <- (lookup_take_lt b (Z.to_nat n) m Hm). by rewrite Heq.
Qed.

Lemma stages_eq_lookup n (a b : list float) :
  (forall m, (m < Z.to_nat n)%nat -> a !! m = b !! m) ->
  stages n a = stages n b.
Proof.
  unfold stages. intros Heq. apply list_eq. intros m.
  destruct (decide (m < Z.to_nat n)%nat) as [Hlt|Hge].
  - rewrite !lookup_take_lt by done. by apply Heq.
  - rewrite !lookup_take_ge by lia. done.
Qed.

Lemma set_params_same_active lam ord newk w1 w2 w1' :
  sized w1 -> sized w2 -> same_active w1 w2 ->
  set_params lam ord newk w1 = Ok w1' ->
  exists w2', set_params lam ord newk w2 = Ok w2' /\ same_active w1' w2'.
Proof.
  intros Hsz1 Hsz2 [Ho Hl Hk H1 H2 Hu Ht] Hrun.
  destruct (set_params_Ok_inv _ _ _ _ _ Hsz1 Hrun) as [Hzero Hnewk].
  pose proof (set_params_Ok _ _ _ _ _ Hsz1 Hrun) as P1.
  destruct (set_params_total lam ord newk w2 Hsz2) as (w2' & Hrun2 & P2);
    [by rewrite <- Ho|done|].
  exists w2'. split; [done|].
  assert (order_ w1' = order_ w2') as Ho'
    by (rewrite (sp_order _ _ _ _ _ P1), (sp_order _ _ _ _ _ P2); done).
  assert (k_ w1' = k_ w2') as Hk'.
  { apply list_eq. intros m.
    destruct (decide (m < Z.to_nat (order_ w1'))%nat) as [Hlt|Hge].
    - rewrite (sp_k_new _ _ _ _ _ P1), (sp_k_new _ _ _ _ _ P2) by lia. done.
    - rewrite (sp_k_old _ _ _ _ _ P1), (sp_k_old _ _ _ _ _ P2) by lia.
      by rewrite Hk. }
  assert (stages (order_ w1') (t_ w1') = stages (order_ w2') (t_ w2')) as Ht'.
  { rewrite <- Ho'. apply stages_eq_lookup. intros m Hm.
    destruct (decide (order_ w1 <= Z.of_nat m < order_ w1')) as [Hin|Hout].
    - rewrite (sp_t_new _ _ _ _ _ P1), (sp_t_new _ _ _ _ _ P2) by lia. done.
    - rewrite (sp_t_old _ _ _ _ _ P1), (sp_t_old _ _ _ _ _ P2) by lia.
      rewrite Ho in Ht. apply (stages_lookup_eq _ _ _ Ht). lia. }
  assert (s2_ w1' = s2_ w2') as H2'
    by (rewrite (sp_s2 _ _ _ _ _ P1), (sp_s2 _ _ _ _ _ P2), Ho', Hk'; done).
  split; try done.
  - by rewrite (sp_lambda _ _ _ _ _ P1), (sp_lambda _ _ _ _ _ P2).
  - by rewrite (sp_s1 _ _ _ _ _ P1), (sp_s1 _ _ _ _ _ P2).
  - rewrite (sp_next_u _ _ _ _ _ P1), (sp_next_u _ _ _ _ _ P2).
    by rewrite Ht', H2', Ho', Hk'.
Qed.

Lemma x_was_same_active x w1 w2 w1' :
  sized w1 -> sized w2 -> order_ w1 <= max_wapl_filt_order ->
  same_active w1 w2 ->
  x_was x w1 = Ok w1' ->
  exists w2', x_was x w2 = Ok w2' /\ same_active w1' w2'.
Proof.
  intros Hsz1 Hsz2 Hord [Ho Hl Hk H1 H2 Hu Ht] Hrun.
  rewrite x_was_total in Hrun by done. injection Hrun as <-.
  exists (x_was_spec x w2). split; [apply x_was_total; [lia|done]|].
  unfold x_was_spec. rewrite <- Ht, <- Ho, <- Hl, <- Hk, <- H1, <- H2, <- Hu.
  set (a0 := dmul _ _).
  pose proof (recurrence_length (lambda_ w1) (stages (order_ w1) (k_ w1))
                (stages (order_ w1) (t_ w1)) a0 a0 d0 d0) as Hlen.
  destruct (recurrence _ _ _ a0 a0 d0 d0) as [ts [[[a b] nua] nub]].
  cbn [fst] in Hlen. unfold stages in Hlen. rewrite !length_take in Hlen.
  destruct Hsz1 as [Hk1 Ht1].
  assert (length ts = Z.to_nat (order_ w1)) as Hts by lia.
  unfold set_next_u, set_t.
  split; cbn [order_ lambda_ k_ s1_ s2_ t_ next_u_]; try done.
  unfold stages. rewrite <- Ho. by rewrite !take_app_length' by (by symmetry).
Qed.

Lemma reset_state_same_active w1 w2 w1' :
  sized w1 -> sized w2 -> order_ w1 <= max_wapl_filt_order ->
  same_active w1 w2 ->
  reset_state w1 = Ok w1' ->
  exists w2', reset_state w2 = Ok w2' /\ same_active w1' w2'.
Proof.
  intros Hsz1 Hsz2 Hord [Ho Hl Hk H1 H2 Hu Ht] Hrun.
  destruct (reset_state_frame w1 Hord Hsz1)
    as (v1 & Hr1 & _ & Ho1 & Hl1 & Hk1 & Hs11 & Hs21 & Hu1 & Hin1 & _).
  destruct (reset_state_frame w2 ltac:(lia) Hsz2)
    as (v2 & Hr2 & _ & Ho2 & Hl2 & Hk2 & Hs12 & Hs22 & Hu2 & Hin2 & _).
  assert (v1 = w1') as -> by congruence.
  exists v2. split; [done|]. split; try congruence.
  rewrite Ho2, <- Ho, <- Ho1. apply stages_eq_lookup. intros m Hm.
  rewrite Hin1, Hin2 by lia. done.
Qed.

Lemma do_call_same_active c w1 w2 w1' :
  reached w1 -> sized w2 -> same_active w1 w2 ->
  do_call c w1 = Ok w1' ->
  exists w2', do_call c w2 = Ok w2' /\ same_active w1' w2' /\ sized w2'.
Proof.
  intros Hre Hsz2 Hsame Hrun.
  assert (exists w2', do_call c w2 = Ok w2' /\ same_active w1' w2')
    as (w2' & Hrun2 & Hsame').
  { destruct c as [lam ord newk|junk lam ord it| |x];
      cbn [do_call] in Hrun |- *.
    - by apply (set_params_same_active _ _ _ w1); try apply Hre.
    - unfold set_params_iter in Hrun |- *.
      apply bind_Ok in Hrun as (st & -> & Hrun). cbn [mbind result_bind].
      by apply (set_params_same_active _ _ _ w1); try apply Hre.
    - by apply (reset_state_same_active w1); try apply Hre.
    - by apply (x_was_same_active _ w1); try apply Hre. }
  exists w2'. split; [done|]. split; [done|].
  destruct c as [lam ord newk|junk lam ord it| |x]; cbn [do_call] in Hrun2.
  - by destruct (set_params_Ok _ _ _ _ _ Hsz2 Hrun2).
  - apply set_params_iter_Ok in Hrun2 as (temp & Hrun2).
    by destruct (set_params_Ok _ _ _ _ _ Hsz2 Hrun2).
  - destruct (reset_state_frame w2) as (v & Hv & Hszv & _);
      [rewrite <- (sa_order _ _ Hsame); apply Hre|done|congruence].
  - destruct (x_was_frame x w2) as (v & Hv & Hszv & _);
      [rewrite <- (sa_order _ _ Hsame); apply Hre|done|congruence].
Qed.

Lemma run_same_active h : forall w1 w2 w1',
  reached w1 -> sized w2 -> same_active w1 w2 ->
  run h w1 = Ok w1' ->
  exists w2', run h w2 = Ok w2' /\ same_active w1' w2'.
Proof.
  induction h as [|c h IH]; intros w1 w2 w1' Hre Hsz2 Hsame Hrun.
  - injection Hrun as <-. by exists w2.
  - cbn [run] in Hrun |- *. apply bind_Ok in Hrun as (v1 & Hc & Hrun).
    destruct (do_call_same_active c w1 w2 v1 Hre Hsz2 Hsame Hc)
      as (v2 & -> & Hsame' & Hsz').
    cbn [mbind result_bind].
    apply (IH v1 v2); [by eapply do_call_reached|done|done|done].
Qed.

(** *** Which faults a call can produce *)

Lemma set_params_post_well_formed lam ord newk w w' :
  0 <= ord -> set_params_post lam ord newk w w' -> well_formed w'.
Proof.
  intros Hord Hpost. split; [|apply Hpost].
  rewrite (sp_order _ _ _ _ _ Hpost). unfold max_wapl_filt_order. lia.
Qed.

Lemma set_params_outcome lam ord newk w :
  well_formed w -> 0 <= ord ->
  outcome well_formed (fun f => caller_fault f = true)
          (set_params lam ord newk w).
Proof.
  intros [Hord Hsz] Hnn.
  set (n := Z.min ord max_wapl_filt_order).
  destruct (decide (Z.to_nat n <= length newk)%nat) as [Hlen|Hshort].
  - destruct (set_params_total lam ord newk w Hsz) as (w' & -> & Hpost);
      [lia|done|].
    by eapply set_params_post_well_formed.
  - unfold set_params. fold n.
    destruct (for_range 0 n (copy_body newk) w) as [w1|f] eqn:Hcopy.
    + exfalso.
      destruct (for_range_Ok_iter _ _ _ _ _ (Z.of_nat (length newk)) Hcopy)
        as (sj & sj' & Hbody); [lia|].
      unfold copy_body, newk_read in Hbody.
      apply bind_Ok in Hbody as (v & Hv & _).
      destruct (0 <=? Z.of_nat (length newk)); [|done].
      rewrite Nat2Z.id in Hv.
      by rewrite (proj2 (lookup_ge_None newk (length newk))) in Hv.
    + cbn [mbind result_bind outcome].
      apply (for_range_fault
               (fun _ w' => length (k_ w') = Z.to_nat max_wapl_filt_order)
               (fun f => caller_fault f = true) _ _ _ _ _ (sz_k _ Hsz)) in Hcopy;
        [done|].
      intros j w0 Hj Hk0. unfold copy_body, newk_read.
      replace (0 <=? j) with true by lia.
      destruct (newk !! Z.to_nat j) as [v|]; [|done].
      cbn [mbind result_bind]. unfold write_k.
      rewrite array_write_in_range by (done || lia).
      cbn [mbind result_bind outcome k_ set_k]. by rewrite length_insert.
Qed.

Lemma set_params_iter_outcome junk lam ord it w :
  well_formed w -> 0 <= ord ->
  outcome well_formed (fun f => caller_fault f = true)
          (set_params_iter junk lam ord it w).
Proof.
  intros [Hord Hsz] Hnn.
  set (n := Z.min ord max_wapl_filt_order).
  destruct (decide (Z.to_nat n <= length it)%nat) as [Hlen|Hshort].
  - destruct (set_params_iter_total junk lam ord it w Hsz)
      as (w' & -> & Hpost); [lia|done|].
    by eapply set_params_post_well_formed.
  - unfold set_params_iter. fold n.
    destruct (for_range 0 n fill_body (indeterminate_array junk, it))
      as [s1|f] eqn:Hfill.
    + exfalso.
      pose proof (for_range_partial
        (fun j s => (Z.to_nat j <= length it)%nat /\
                    snd s = drop (Z.to_nat j) it)
        fill_body 0 n (indeterminate_array junk, it) s1) as Hinv.
      destruct Hinv as [Hle _]; [lia| |  |done|lia].
      * split; [cbn; lia|done].
      * intros j [temp rest] s' Hj [Hle Hrest] Hbody. cbn [snd] in *.
        subst rest. unfold fill_body in Hbody.
        destruct (drop (Z.to_nat j) it) as [|v rest'] eqn:Hdrop; [done|].
        apply bind_Ok in Hbody as (temp' & _ & [= <-]). cbn [snd].
        assert (Z.to_nat j < length it)%nat.
        { apply (f_equal length) in Hdrop. rewrite length_drop in Hdrop.
          cbn in Hdrop. lia. }
        split; [lia|].
        replace (Z.to_nat (j + 1)) with (Datatypes.S (Z.to_nat j)) by lia.
        apply (f_equal (drop 1)) in Hdrop. rewrite drop_drop in Hdrop.
        cbn in Hdrop. rewrite drop_0 in Hdrop. rewrite <- Hdrop. f_equal. lia.
    + cbn [mbind result_bind outcome].
      apply (for_range_fault
               (fun _ s => length (fst s) = Z.to_nat max_wapl_filt_order)
               (fun f => caller_fault f = true) fill_body 0 n
               (indeterminate_array junk, it) f
               (length_indeterminate_array junk)) in Hfill; [done|].
      intros j [temp rest] Hj Hlen. cbn [fst] in Hlen. unfold fill_body.
      destruct rest as [|v rest]; [done|].
      rewrite array_write_in_range by (done || lia).
      cbn [mbind result_bind outcome fst]. by rewrite length_insert.
Qed.

Lemma do_call_outcome c w :
  well_formed w -> order_nonneg c ->
  outcome well_formed (fun f => caller_fault f = true) (do_call c w).
Proof.
  intros Hwf Hnn. destruct c as [lam ord newk|junk lam ord it| |x];
    cbn [do_call order_nonneg] in *.
  - by apply set_params_outcome.
  - by apply set_params_iter_outcome.
  - destruct Hwf as [Hord Hsz].
    destruct (reset_state_frame w ltac:(lia) Hsz)
      as (w' & -> & Hsz' & Ho & _). split; [lia|done].
  - destruct Hwf as [Hord Hsz].
    destruct (x_was_frame x w ltac:(lia) Hsz)
      as (w' & -> & Hsz' & Ho & _). split; [lia|done].
Qed.

(** Closes [Forall order_nonneg h] on a history written out. *)
Ltac nonneg_history :=
  unfold demo_history; cbn [app];
  repeat constructor; cbn [order_nonneg]; lia.

Lemma run_outcome h : forall w,
  well_formed w -> Forall order_nonneg h ->
  outcome well_formed (fun f => caller_fault f = true) (run h w).
Proof.
  induction h as [|c h IH]; intros w Hwf Hnn; [done|].
  apply Forall_cons in Hnn as [Hc Hh]. cbn [run].
  pose proof (do_call_outcome c w Hwf Hc) as Hstep.
  destruct (do_call c w) as [w1|f]; cbn [mbind result_bind]; [|done].
  by apply IH.
Qed.

(* ===================================================================== *)
(** ** Properties of the interface *)
(* ===================================================================== *)

(** C1.  After every [set_params] call ([precompute_derived_params] runs in
    each) the derived scales are [scaleIn = 1] and [scaleOut = 1/a], the
    quotient stored in the [float] member [s2_], where [a] is the
    accumulator of the section 4.2 recurrence ([a = 1], [b = 1]; per stage
    [b *= -lambda], then the butterfly with [k[i]]) over the stored
    coefficients of the active stages; consequently the product
    [scaleIn * scaleOut] is that same [1/a], the multiplication by 1 being
    exact.  When the arrays have their declared size the coefficients are
    the first [order()] ones the caller supplied. *)
Theorem set_params_derived_scales lam ord newk w w' :
  set_params lam ord newk w = Ok w' ->
  let a := steady_state_gain lam (stages (order w') (k_ w')) in
  s1_ w' = f1 /\
  s2_ w' = to_float (ddiv d1 a) /\
  fmul (s1_ w') (s2_ w') = to_float (ddiv d1 a) /\
  (sized w -> stages (order w') (k_ w') = stages (order w') newk).
Proof.
  intros Hrun a.
  assert (s1_ w' = f1 /\ s2_ w' = to_float (ddiv d1 a)) as [H1 H2].
  { unfold set_params in Hrun.
    apply bind_Ok in Hrun as (w1 & _ & Hrun).
    apply bind_Ok in Hrun as (w2 & _ & Hrun).
    apply bind_Ok in Hrun as (w4 & Hpre & Hrun).
    apply bind_Ok in Hrun as (nu & _ & [= <-]).
    apply precompute_derived_params_Ok in Hpre. by subst w4. }
  split; [done|]. split; [done|]. split.
  - rewrite H1, H2. apply fmul_one_l, to_float_valid.
  - intros Hsz. destruct (set_params_Ok _ _ _ _ _ Hsz Hrun).
    unfold stages, order. apply list_eq. intros m.
    destruct (decide (m < Z.to_nat (order_ w'))%nat) as [Hlt|Hge].
    + rewrite !lookup_take_lt by done. auto.
    + rewrite !lookup_take_ge by lia. done.
Qed.

(** The demonstration driver's configuration: [lambda = 0.5],
    [k = { 0.25, -0.15 }] on a fresh filter. *)
Lemma set_params_derived_scales_witness :
  exists w',
    set_params demo_lambda 2 demo_k demo_new = Ok w' /\
    s1_ w' = f1 /\
    s2_ w' = to_float (ddiv d1
               (steady_state_gain demo_lambda (stages (order w') (k_ w')))) /\
    fmul (s1_ w') (s2_ w') = s2_ w'.
Proof.
  destruct (set_params demo_lambda 2 demo_k demo_new) as [w'|f] eqn:Hrun;
    [|vm_compute in Hrun; discriminate].
  exists w'. split; [reflexivity|].
  destruct (set_params_derived_scales _ _ _ _ _ Hrun) as (H1 & H2 & H3 & _).
  split; [exact H1|]. split; [exact H2|].
  rewrite H3. symmetry. exact H2.
Defined.

(** C2.  On every filter whose arrays have their size and whose order does
    not exceed [MAX_ORDER] (every configured filter) [x_was(x)] returns,
    and what it leaves is the section 4.3 recurrence: from
    [y = x - pendingFeedback], [a = b = y * scaleIn], [nua = nub = 0], the
    stages are taken in stage order; each stage advances its delay once by
    the all-pass on [b], applies the same all-pass to [nub] against that
    stage's delay as just advanced, storing nothing, and performs one
    butterfly on [(a, b)] and one on [(nua, nub)] with [k[i]].  The active
    delays [t[0 .. order)] become the [order] advanced values, the other
    delays and the configuration are untouched, and [pendingFeedback],
    which the next [u()] returns, is [nua * scaleOut].  Each iteration of
    the loop writes the one cell [t[i]] of its stage and nothing else. *)
Theorem x_was_recurrence x w :
  sized w ->
  order w <= max_wapl_filt_order ->
  let n := order w in
  let y := dsub (to_double x) (to_double (u w)) in
  let a0 := dmul y (to_double (s1_ w)) in
  (exists ts a b nua nub w',
    recurrence (lambda w) (stages n (k_ w)) (stages n (t_ w)) a0 a0 d0 d0
      = (ts, (a, b, nua, nub)) /\
    x_was x w = Ok w' /\
    length ts = Z.to_nat n /\
    t_ w' = ts ++ drop (Z.to_nat n) (t_ w) /\
    u w' = to_float (dmul nua (to_double (s2_ w))) /\
    order w' = order w /\ lambda w' = lambda w /\ k_ w' = k_ w /\
    s1_ w' = s1_ w /\ s2_ w' = s2_ w) /\
  (forall i s s',
    x_was_body (lambda w) i s = Ok s' ->
    0 <= i < max_wapl_filt_order /\
    exists v,
      loc_this s' = set_t (loc_this s) (<[Z.to_nat i:=v]> (t_ (loc_this s)))).
Proof.
  intros Hsz Hord n y a0.
  split; [|apply x_was_body_one_write].
  subst n y a0. unfold u, lambda, order in *.
  set (a0 := dmul _ _).
  destruct (recurrence (lambda_ w) (stages (order_ w) (k_ w))
              (stages (order_ w) (t_ w)) a0 a0 d0 d0)
    as [ts [[[a b] nua] nub]] eqn:Hrec.
  exists ts, a, b, nua, nub, (x_was_spec x w).
  split; [done|]. split; [by apply x_was_total|].
  split.
  { pose proof (recurrence_length (lambda_ w) (stages (order_ w) (k_ w))
                  (stages (order_ w) (t_ w)) a0 a0 d0 d0) as Hlen.
    rewrite Hrec in Hlen. cbn [fst] in Hlen.
    rewrite Hlen. unfold stages. rewrite !length_take.
    destruct Hsz as [Hk Ht]. lia. }
  unfold x_was_spec. fold a0. rewrite Hrec. done.
Qed.

(** The first sample of the demonstration driver. *)
Lemma x_was_recurrence_witness :
  exists w w',
    run demo_history demo_new = Ok w /\
    sized w /\ order w <= max_wapl_filt_order /\
    x_was f1 w = Ok w' /\
    length (stages (order w) (t_ w')) = 2%nat.
Proof.
  destruct (run demo_history demo_new) as [w|f] eqn:Hrun;
    [|vm_compute in Hrun; discriminate].
  assert (reached w) as Hre
    by (eapply run_reached; [apply reached_new|exact Hrun]).
  assert (order w = 2) as Ho
    by (vm_compute in Hrun; by injection Hrun as <-).
  destruct (x_was_recurrence f1 w (re_sized _ Hre) (re_order _ Hre))
    as ((ts & a & b & nua & nub & w' & _ & Hx & Hlen & Ht & _) & _).
  exists w, w'. split; [reflexivity|].
  split; [exact (re_sized _ Hre)|]. split; [exact (re_order _ Hre)|].
  split; [exact Hx|].
  unfold stages. rewrite Ht, Ho in *.
  rewrite take_app_length' by (symmetry; exact Hlen).
  exact Hlen.
Defined.

(** The demonstration driver prints [warp_gain = 1.18125]: the rounded
    [189/160]. *)
Example demo_warp_gain :
  exists w, run demo_history demo_new = Ok w /\ warp_gain w = flit 189 160.
Proof.
  destruct (run demo_history demo_new) as [w|f] eqn:Hrun;
    [|vm_compute in Hrun; discriminate].
  exists w. split; [reflexivity|].
  vm_compute in Hrun. injection Hrun as <-. vm_compute. reflexivity.
Qed.

(** C3, as stated, fails: in the demonstration driver's configuration the
    product of the two scales is about 0.8466 while the steady-state
    accumulator [a] is 1.18125. *)
Lemma scale_product_is_not_accumulator :
  exists w',
    run demo_history demo_new = Ok w' /\
    deq (dmul (to_double (s1_ w')) (to_double (s2_ w')))
        (steady_state_gain (lambda w') (stages (order w') (k_ w'))) = false.
Proof.
  destruct (run demo_history demo_new) as [w'|f] eqn:Hrun;
    [|vm_compute in Hrun; discriminate].
  exists w'. split; [reflexivity|].
  vm_compute in Hrun. injection Hrun as <-. vm_compute. reflexivity.
Qed.

(** C3, amended.  On every filter reached from the constructor
    [warp_gain()], computed as [1.0 / s1_ / s2_], equals
    [1 / (scaleIn * scaleOut)]: [scaleIn] is exactly 1 there, so both are
    the quotient [1 / scaleOut].  After any [set_params] call the product
    [scaleIn * scaleOut] equals [1/a], the reciprocal of the steady-state
    accumulator [a] of section 4.2 (stored in a [float]); it is
    [warp_gain()] that gives [a] back, through these two roundings. *)
Theorem warp_gain_reciprocal junk_k junk_t h w :
  run h (waplns_new junk_k junk_t) = Ok w ->
  warp_gain w
    = to_float (ddiv d1 (dmul (to_double (s1_ w)) (to_double (s2_ w)))) /\
  forall lam ord newk w',
    set_params lam ord newk w = Ok w' ->
    let a := steady_state_gain lam (stages (order w') (k_ w')) in
    fmul (s1_ w') (s2_ w') = to_float (ddiv d1 a) /\
    dmul (to_double (s1_ w')) (to_double (s2_ w'))
      = to_double (to_float (ddiv d1 a)) /\
    warp_gain w' = to_float (ddiv d1 (to_double (to_float (ddiv d1 a)))).
Proof.
  intros Hrun.
  assert (reached w) as Hre by (eapply run_reached; [apply reached_new|done]).
  assert (forall v, reached v ->
            dmul (to_double (s1_ v)) (to_double (s2_ v)) = to_double (s2_ v))
    as Hprod.
  { intros v Hv. rewrite (re_s1 _ Hv).
    change (to_double f1) with d1. apply dmul_one_l, to_double_valid. }
  assert (forall v, reached v ->
            warp_gain v = to_float (ddiv d1 (to_double (s2_ v)))) as Hgain.
  { intros v Hv. unfold warp_gain. by rewrite (re_s1 _ Hv). }
  split; [by rewrite Hprod, Hgain|].
  intros lam ord newk w' Hset a.
  pose proof (set_params_Ok _ _ _ _ _ (re_sized _ Hre) Hset) as Hpost.
  pose proof (set_params_post_reached _ _ _ _ _ Hpost) as Hre'.
  pose proof (sp_s2 _ _ _ _ _ Hpost) as H2. fold a in H2.
  split; [|split].
  - rewrite (re_s1 _ Hre'), H2. apply fmul_one_l, to_float_valid.
  - by rewrite Hprod, H2.
  - by rewrite Hgain, H2.
Qed.

Lemma warp_gain_reciprocal_witness :
  exists w,
    run demo_history demo_new = Ok w /\
    warp_gain w
      = to_float (ddiv d1 (dmul (to_double (s1_ w)) (to_double (s2_ w)))).
Proof.
  destruct (run demo_history demo_new) as [w|f] eqn:Hrun;
    [|vm_compute in Hrun; discriminate].
  exists w. split; [reflexivity|].
  exact (proj1 (warp_gain_reciprocal (fun _ => f0) (fun _ => f0)
                  demo_history w Hrun)).
Defined.

(** C4.  Whatever came before, when [set_params] is called with an order
    [N], then (after any [x_was] calls) with a smaller order [M], then
    (after any [x_was] calls) with a larger order [P], every stage index
    of [[M, P)] that the array has is a valid index holding the delay 0
    right after the growing call: the zeroing loop of that call runs from
    the stored order, which the shrinking call left at [M].  So the values
    left behind in the delays of the stages the shrink made inactive have
    no influence from then on: had they been any others ([stale]), the
    growing call and every call after it would return the same way, with
    the same [u()], the same active delays and the same configuration. *)
Theorem regrow_clears_delays junk_k junk_t h0
    lamN N kN xs lamM M kM ys lamP P kP w3 w :
  M < N -> M < P ->
  run (h0 ++ [SetParams lamN N kN] ++ map XWas xs ++
       [SetParams lamM M kM] ++ map XWas ys)
      (waplns_new junk_k junk_t) = Ok w3 ->
  set_params lamP P kP w3 = Ok w ->
  (forall i, M <= i < P -> i < max_wapl_filt_order ->
     0 <= i /\ t_ w !! Z.to_nat i = Some f0) /\
  (forall stale h w',
     length stale = Z.to_nat max_wapl_filt_order ->
     stages (order w3) stale = stages (order w3) (t_ w3) ->
     run h w = Ok w' ->
     exists v v',
       set_params lamP P kP (set_t w3 stale) = Ok v /\
       run h v = Ok v' /\
       u v' = u w' /\ same_active w' v').
Proof.
  intros HMN HMP Hrun H5.
  assert (reached w3) as Hre3 by (eapply run_reached; [apply reached_new|done]).
  pose proof (set_params_Ok _ _ _ _ _ (re_sized _ Hre3) H5) as Hpost.
  split.
  - intros i Hi Hmax.
    rewrite run_app in Hrun. apply bind_Ok in Hrun as (w0 & H0 & Hrun).
    rewrite run_app in Hrun. apply bind_Ok in Hrun as (w1 & H1 & Hrun).
    rewrite run_app in Hrun. apply bind_Ok in Hrun as (w2 & H2 & Hrun).
    rewrite run_app in Hrun. apply bind_Ok in Hrun as (w2' & H3 & Hrun).
    assert (reached w0) as Hre0
      by (eapply run_reached; [apply reached_new|done]).
    assert (reached w1) as Hre1 by (by eapply run_reached).
    assert (reached w2) as Hre2 by (by eapply run_reached).
    assert (reached w2') as Hre2' by (by eapply run_reached).
    (* the shrinking call leaves the order at min(M, MAX_ORDER) *)
    cbn [run do_call] in H3. apply bind_Ok in H3 as (v & H3 & [= ->]).
    pose proof (sp_order _ _ _ _ _
                  (set_params_Ok _ _ _ _ _ (re_sized _ Hre2) H3)) as Ho3.
    (* the x_was calls keep it *)
    destruct (run_x_was ys w2' Hre2') as (w3' & H4' & _ & Ho4).
    assert (w3' = w3) as -> by congruence.
    (* the growing call *)
    destruct (set_params_Ok_inv _ _ _ _ _ (re_sized _ Hre3) H5) as [Hzero _].
    assert (0 <= i) as Hi0 by lia.
    split; [done|].
    apply (sp_t_new _ _ _ _ _ Hpost).
    rewrite (sp_order _ _ _ _ _ Hpost). lia.
  - intros stale h w' Hlen Hstale Hh. unfold order, u in *.
    assert (sized (set_t w3 stale)) as Hsz'.
    { split; cbn [k_ t_ set_t]; [apply (re_sized _ Hre3)|done]. }
    assert (same_active w3 (set_t w3 stale)) as Hsame by (by split).
    destruct (set_params_same_active _ _ _ _ _ _
                (re_sized _ Hre3) Hsz' Hsame H5) as (v & Hv & Hsame').
    assert (reached w) as Hre by (by eapply set_params_post_reached).
    assert (sized v) as Hszv
      by (by destruct (set_params_Ok _ _ _ _ _ Hsz' Hv)).
    destruct (run_same_active h w v w' Hre Hszv Hsame' Hh)
      as (v' & Hv' & Hsame'').
    exists v, v'. split; [done|]. split; [done|].
    split; [|done]. symmetry. apply Hsame''.
Qed.

(** Orders 2, 1, 3 on a fresh filter, a sample after each of the first
    two calls. *)
Lemma regrow_clears_delays_witness :
  exists w3 w,
    run ([] ++ [SetParams demo_lambda 2 demo_k] ++ map XWas [f1] ++
         [SetParams demo_lambda 1 demo_k] ++ map XWas [f1]) demo_new
      = Ok w3 /\
    set_params demo_lambda 3 (demo_k ++ [f0]) w3 = Ok w /\
    t_ w !! Z.to_nat 1 = Some f0 /\ t_ w !! Z.to_nat 2 = Some f0.
Proof.
  destruct (run _ demo_new) as [w3|f] eqn:Hrun;
    [|vm_compute in Hrun; discriminate].
  destruct (set_params demo_lambda 3 (demo_k ++ [f0]) w3) as [w|f] eqn:Hset;
    [|vm_compute in Hrun; injection Hrun as <-;
      vm_compute in Hset; discriminate].
  exists w3, w. split; [reflexivity|]. split; [exact Hset|].
  pose proof (proj1 (regrow_clears_delays (fun _ => f0) (fun _ => f0) []
                demo_lambda 2 demo_k [f1] demo_lambda 1 demo_k [f1]
                demo_lambda 3 (demo_k ++ [f0]) w3 w
                ltac:(lia) ltac:(lia) Hrun Hset)) as H.
  split; [apply (H 1)|apply (H 2)]; unfold max_wapl_filt_order; lia.
Defined.

(** C5.  On every filter reached from the constructor whose order is 0
    (a fresh filter, or after calls the last [set_params] of which left the
    order 0) [u()] returns 0, and after any number of [x_was] calls, with
    any inputs, the order is still 0 and [u()] still returns 0. *)
Theorem order_zero_bypass junk_k junk_t h w :
  run h (waplns_new junk_k junk_t) = Ok w ->
  order w = 0 ->
  u w = f0 /\
  forall xs, exists w',
    run (map XWas xs) w = Ok w' /\ order w' = 0 /\ u w' = f0.
Proof.
  intros Hrun Ho.
  assert (reached w) as Hre by (eapply run_reached; [apply reached_new|done]).
  unfold order, u in *. split; [apply (re_next_u _ Hre); lia|].
  intros xs. destruct (run_x_was xs w Hre) as (w' & Hrun' & Hre' & Ho').
  exists w'. split; [done|]. split; [lia|].
  apply (re_next_u _ Hre'). lia.
Qed.

(** A fresh filter configured with order 0, then fed samples. *)
Lemma order_zero_bypass_witness :
  exists w w',
    run [SetParams demo_lambda 0 demo_k] demo_new = Ok w /\
    order w = 0 /\ u w = f0 /\
    run (map XWas [f1; demo_lambda; f0]) w = Ok w' /\ u w' = f0.
Proof.
  destruct (run [SetParams demo_lambda 0 demo_k] demo_new) as [w|f] eqn:Hrun;
    [|vm_compute in Hrun; discriminate].
  assert (order w = 0) as Ho.
  { vm_compute in Hrun. by injection Hrun as <-. }
  destruct (order_zero_bypass (fun _ => f0) (fun _ => f0) _ w Hrun Ho)
    as (Hu & Hxs).
  destruct (Hxs [f1; demo_lambda; f0]) as (w' & Hrun' & _ & Hu').
  exists w, w'.
  split; [reflexivity|]. split; [exact Ho|]. split; [exact Hu|].
  split; [exact Hrun'|exact Hu'].
Defined.

(** C6.  A call of [set_params] with a requested order above [MAX_ORDER]
    (= 32), on a filter whose stored order is not negative and with at
    least [MAX_ORDER] coefficients supplied, reports nothing: it returns,
    [order()] is [MAX_ORDER], and the stored coefficients are exactly the
    first [MAX_ORDER] supplied ones.  The generic-iterator overload leaves
    the same filter, and both read only the first [MAX_ORDER] supplied
    elements: cutting the sequence after them changes nothing. *)
Theorem order_clamp lam ord newk w :
  sized w ->
  0 <= order w ->
  max_wapl_filt_order < ord ->
  (Z.to_nat max_wapl_filt_order <= length newk)%nat ->
  exists w',
    set_params lam ord newk w = Ok w' /\
    order w' = max_wapl_filt_order /\
    k_ w' = take (Z.to_nat max_wapl_filt_order) newk /\
    set_params lam ord (take (Z.to_nat max_wapl_filt_order) newk) w = Ok w' /\
    forall junk_temp,
      set_params_iter junk_temp lam ord newk w = Ok w' /\
      set_params_iter junk_temp lam ord
        (take (Z.to_nat max_wapl_filt_order) newk) w = Ok w'.
Proof.
  intros Hsz Hord Hbig Hlen. unfold order in *.
  assert (Z.min ord max_wapl_filt_order = max_wapl_filt_order) as Hmin by lia.
  destruct (set_params_total lam ord newk w Hsz) as (w' & Hrun & Hpost);
    [lia|by rewrite Hmin|].
  pose proof (sp_order _ _ _ _ _ Hpost) as Ho. rewrite Hmin in Ho.
  assert (forall m,
    (m < Z.to_nat (Z.min ord max_wapl_filt_order))%nat ->
    take (Z.to_nat max_wapl_filt_order) newk !! m = newk !! m) as Hcut.
  { intros m Hm. apply lookup_take_lt. lia. }
  assert (Z.to_nat (Z.min ord max_wapl_filt_order)
          <= length (take (Z.to_nat max_wapl_filt_order) newk))%nat as Hlen'.
  { rewrite length_take. lia. }
  exists w'. split; [done|]. split; [done|]. split; [|split].
  - apply list_eq. intros m.
    destruct (decide (m < Z.to_nat max_wapl_filt_order)%nat) as [Hlt|Hge].
    + rewrite lookup_take_lt by done.
      apply (sp_k_new _ _ _ _ _ Hpost). by rewrite Ho.
    + rewrite lookup_take_ge by lia. apply lookup_ge_None.
      rewrite (sz_k _ (sp_sized _ _ _ _ _ Hpost)). lia.
  - destruct (set_params_total lam ord
                (take (Z.to_nat max_wapl_filt_order) newk) w Hsz)
      as (w2 & Hrun2 & Hpost2); [lia|done|].
    rewrite Hrun2. f_equal.
    by apply (set_params_post_unique _ _ _ _ _ _ _ Hcut Hpost2 Hpost).
  - intros junk. split.
    + destruct (set_params_iter_total junk lam ord newk w Hsz)
        as (w2 & Hrun2 & Hpost2); [lia|by rewrite Hmin|].
      rewrite Hrun2. f_equal.
      by apply (set_params_post_unique lam ord newk newk w).
    + destruct (set_params_iter_total junk lam ord
                  (take (Z.to_nat max_wapl_filt_order) newk) w Hsz)
        as (w2 & Hrun2 & Hpost2); [lia|done|].
      rewrite Hrun2. f_equal.
      by apply (set_params_post_unique _ _ _ _ _ _ _ Hcut Hpost2 Hpost).
Qed.

(** Forty coefficients offered to a fresh filter with order 40. *)
Lemma order_clamp_witness :
  sized demo_new /\
  0 <= order demo_new /\
  max_wapl_filt_order < 40 /\
  (Z.to_nat max_wapl_filt_order <= length (replicate 40 demo_lambda))%nat /\
  exists w',
    set_params demo_lambda 40 (replicate 40 demo_lambda) demo_new = Ok w' /\
    order w' = max_wapl_filt_order.
Proof.
  assert (sized demo_new) as Hsz by apply well_formed_new.
  assert (0 <= order demo_new) as Hord by reflexivity.
  assert (max_wapl_filt_order < 40) as Hbig by reflexivity.
  assert (Z.to_nat max_wapl_filt_order
          <= length (replicate 40 demo_lambda))%nat as Hlen
    by (vm_compute; lia).
  split; [exact Hsz|]. split; [exact Hord|].
  split; [exact Hbig|]. split; [exact Hlen|].
  destruct (order_clamp demo_lambda 40 (replicate 40 demo_lambda) demo_new
              Hsz Hord Hbig Hlen) as (w' & Hrun & Ho & _).
  exists w'. split; [exact Hrun|exact Ho].
Defined.

(** C7, as stated, fails: the requested order is clamped from above only
    ([std::min]), so a negative order is stored as it is.  Order -1 on a
    fresh filter leaves [order() = -1]. *)
Lemma negative_order_is_stored :
  exists w',
    set_params demo_lambda (-1) demo_k demo_new = Ok w' /\
    order w' = -1 /\ order w' <> 0.
Proof.
  destruct (set_params demo_lambda (-1) demo_k demo_new) as [w'|f] eqn:Hrun;
    [|vm_compute in Hrun; discriminate].
  exists w'. split; [reflexivity|].
  vm_compute in Hrun. injection Hrun as <-. split; [reflexivity|discriminate].
Qed.

(** C7, amended.  A call of [set_params] with an order [<= 0], on a filter
    whose stored order is not negative, returns with [order()] equal to
    the requested order itself (0, or the negative number); no coefficient
    is stored and no delay is written; no lattice stage is active:
    [scaleOut] is 1, [u()] is 0, and [x_was] changes nothing. *)
Theorem nonpositive_order_is_stored lam ord newk w :
  sized w ->
  0 <= order w ->
  ord <= 0 ->
  exists w',
    set_params lam ord newk w = Ok w' /\
    order w' = ord /\
    k_ w' = k_ w /\ t_ w' = t_ w /\
    s2_ w' = f1 /\ u w' = f0 /\
    forall x, x_was x w' = Ok w'.
Proof.
  intros Hsz Hord Hle. unfold order in *.
  assert (Z.min ord max_wapl_filt_order = ord) as Hmin
    by (unfold max_wapl_filt_order; lia).
  destruct (set_params_total lam ord newk w Hsz) as (w' & Hrun & Hpost);
    [lia|lia|].
  pose proof (set_params_post_reached _ _ _ _ _ Hpost) as Hre.
  pose proof (sp_order _ _ _ _ _ Hpost) as Ho. rewrite Hmin in Ho.
  assert (t_ w' = t_ w) as Ht.
  { apply list_eq. intros m. apply (sp_t_old _ _ _ _ _ Hpost). lia. }
  exists w'. split; [done|]. split; [done|]. split; [|split; [done|]].
  { apply list_eq. intros m. apply (sp_k_old _ _ _ _ _ Hpost). lia. }
  unfold u. split; [apply (re_s2 _ Hre); lia|].
  split; [apply (re_next_u _ Hre); lia|].
  intros x.
  destruct (x_was_frame x w' (re_order _ Hre) (re_sized _ Hre))
    as (w2 & -> & _ & Ho2 & Hl2 & Hk2 & Hs1 & Hs2 & Hidle).
  destruct Hidle as [Ht2 Hu2]; [lia|].
  rewrite (re_s2 _ Hre) in Hu2 by lia.
  change (to_float (dmul d0 (to_double f1))) with f0 in Hu2.
  rewrite <- (re_next_u _ Hre) in Hu2 by lia.
  f_equal. destruct w2, w'. cbn in *. congruence.
Qed.

Lemma nonpositive_order_is_stored_witness :
  sized demo_new /\ 0 <= order demo_new /\ -3 <= 0 /\
  exists w', set_params demo_lambda (-3) demo_k demo_new = Ok w' /\
             order w' = -3.
Proof.
  assert (sized demo_new) as Hsz by apply well_formed_new.
  assert (0 <= order demo_new) as Hord by reflexivity.
  assert (-3 <= 0) as Hle by lia.
  split; [exact Hsz|]. split; [exact Hord|]. split; [exact Hle|].
  destruct (nonpositive_order_is_stored demo_lambda (-3) demo_k demo_new
              Hsz Hord Hle) as (w' & Hrun & Ho & _).
  exists w'. split; [exact Hrun|exact Ho].
Defined.

(** C8.  On every filter whose arrays have their size and whose order does
    not exceed [MAX_ORDER] [reset_state()] returns; it zeroes the delays
    [t[0 .. order)] and [pendingFeedback], so that [u()] returns 0; it
    leaves the order, [lambda], the coefficients and both scales (and the
    delays beyond the order) as they were; and a second call changes
    nothing more. *)
Theorem reset_state_clears_state w :
  sized w ->
  order w <= max_wapl_filt_order ->
  exists w',
    reset_state w = Ok w' /\
    (forall i, 0 <= i < order w -> t_ w' !! Z.to_nat i = Some f0) /\
    (forall i, order w <= i -> t_ w' !! Z.to_nat i = t_ w !! Z.to_nat i) /\
    next_u_ w' = f0 /\ u w' = f0 /\
    order w' = order w /\ lambda w' = lambda w /\ k_ w' = k_ w /\
    s1_ w' = s1_ w /\ s2_ w' = s2_ w /\
    reset_state w' = Ok w'.
Proof.
  intros Hsz Hord. unfold order, lambda, u in *.
  destruct (reset_state_frame w Hord Hsz)
    as (w' & Hrun & Hsz' & Ho & Hl & Hk & Hs1 & Hs2 & Hu & Hin & Hout).
  exists w'. split; [done|].
  split; [intros i Hi; apply Hin; lia|].
  split; [intros i Hi; apply Hout; lia|].
  repeat (split; [done|]).
  destruct (reset_state_frame w' ltac:(lia) Hsz')
    as (w2 & -> & _ & Ho2 & Hl2 & Hk2 & Hs12 & Hs22 & Hu2 & Hin2 & Hout2).
  f_equal.
  assert (t_ w2 = t_ w') as Ht.
  { apply list_eq. intros m.
    destruct (decide (Z.of_nat m < order_ w')) as [Hlt|Hge].
    - rewrite Hin2 by done. rewrite Hin by lia. done.
    - apply Hout2. lia. }
  destruct w2, w'. cbn in *. congruence.
Qed.

(** The demonstration driver's filter after its first sample. *)
Lemma reset_state_clears_state_witness :
  exists w w',
    run (demo_history ++ [XWas f1]) demo_new = Ok w /\
    sized w /\ order w <= max_wapl_filt_order /\
    reset_state w = Ok w' /\ u w' = f0 /\ reset_state w' = Ok w'.
Proof.
  destruct (run (demo_history ++ [XWas f1]) demo_new) as [w|f] eqn:Hrun;
    [|vm_compute in Hrun; discriminate].
  assert (reached w) as Hre
    by (eapply run_reached; [apply reached_new|exact Hrun]).
  destruct (reset_state_clears_state w (re_sized _ Hre) (re_order _ Hre))
    as (w' & Hreset & _ & _ & _ & Hu & _ & _ & _ & _ & _ & Hagain).
  exists w, w'.
  split; [reflexivity|]. split; [exact (re_sized _ Hre)|].
  split; [exact (re_order _ Hre)|]. split; [exact Hreset|].
  split; [exact Hu|exact Hagain].
Defined.

(** Why the requested orders must not be negative: a negative order is
    stored, and the zeroing loop of the next growing call starts from it. *)
Example negative_order_breaks_next_call :
  run [SetParams demo_lambda (-1) []; SetParams demo_lambda 1 [f1]] demo_new
  = Undefined (t_out_of_range (-1)).
Proof. vm_compute. reflexivity. Qed.

(** C9.  In a history of calls on a fresh filter in which every
    [set_params] call (either overload) receives an order [>= 0], no read
    or write of [k_] or [t_] by [set_params],
    [precompute_derived_params], [x_was] or [reset_state] leaves the index
    range [[0, 32)]: the run either completes, in a filter whose order is a
    number of stages of the arrays, or stops because a caller supplied
    fewer coefficients than it asked to have copied. *)
Theorem own_arrays_in_range junk_k junk_t h :
  Forall order_nonneg h ->
  (forall f, run h (waplns_new junk_k junk_t) = Undefined f ->
     own_array_fault f = false /\ caller_fault f = true) /\
  (forall w, run h (waplns_new junk_k junk_t) = Ok w -> well_formed w).
Proof.
  intros Hnn.
  pose proof (run_outcome h (waplns_new junk_k junk_t)
                (well_formed_new _ _) Hnn) as H.
  split.
  - intros f Hrun. rewrite Hrun in H. cbn [outcome] in H.
    split; [|done]. by destruct f.
  - intros w Hrun. by rewrite Hrun in H.
Qed.

Lemma own_arrays_in_range_witness :
  Forall order_nonneg (demo_history ++ [XWas f1; ResetState]) /\
  exists w, run (demo_history ++ [XWas f1; ResetState]) demo_new = Ok w /\
            well_formed w.
Proof.
  assert (Forall order_nonneg (demo_history ++ [XWas f1; ResetState]))
    as Hnn by nonneg_history.
  split; [exact Hnn|].
  destruct (run (demo_history ++ [XWas f1; ResetState]) demo_new)
    as [w|f] eqn:Hrun; [|vm_compute in Hrun; discriminate].
  exists w. split; [reflexivity|].
  apply (own_arrays_in_range (fun _ => f0) (fun _ => f0)
           (demo_history ++ [XWas f1; ResetState]) Hnn). exact Hrun.
Defined.

Lemma fis_zero_feq x : fis_zero x = true -> feq x f0 = true.
Proof. by destruct x as [[[]| | |]]. Qed.

(** C10, as stated, fails: on a fresh filter, [set_params] with
    [lambda = 0.5], order 1 and [k = { -2 }] computes the accumulator
    [a = 0], hence [scaleOut = +infinity], and [u()] returns
    [0 * infinity], a NaN, which does not compare equal to 0. *)
Lemma first_feedback_can_be_nan :
  exists w',
    set_params demo_lambda 1 [flit (-2) 1] demo_new = Ok w' /\
    s2_ w' = Float (S754_infinity false) /\
    u w' = Float S754_nan /\
    feq (u w') f0 = false.
Proof.
  destruct (set_params demo_lambda 1 [flit (-2) 1] demo_new)
    as [w'|f] eqn:Hrun; [|vm_compute in Hrun; discriminate].
  exists w'. split; [reflexivity|].
  vm_compute in Hrun. injection Hrun as <-. by vm_compute.
Qed.

(** An infinite [lambda] does the same through the all-pass
    ([infinity * 0]). *)
Example infinite_lambda_feedback_nan :
  exists w',
    set_params (Float (S754_infinity false)) 1 [flit 1 4] demo_new = Ok w' /\
    u w' = Float S754_nan.
Proof.
  destruct (set_params (Float (S754_infinity false)) 1 [flit 1 4] demo_new)
    as [w'|f] eqn:Hrun; [|vm_compute in Hrun; discriminate].
  exists w'. split; [reflexivity|].
  vm_compute in Hrun. injection Hrun as <-. by vm_compute.
Qed.

(** C10, amended.  After a [set_params] call that is the first one on a
    fresh filter, or at whose completion every active delay [t[i]],
    [0 <= i < order], is a zero, [u()] returns a zero (it compares equal
    to 0), provided [lambda], the active coefficients and the computed
    [scaleOut] are finite numbers (no infinity, no NaN): the feedback pass
    over zero delays then leaves [nua] a zero. *)
Theorem feedback_zero_after_set_params lam ord newk w w' :
  sized w ->
  set_params lam ord newk w = Ok w' ->
  (exists junk_k junk_t, w = waplns_new junk_k junk_t) \/
    Forall (fun t => fis_zero t = true) (stages (order w') (t_ w')) ->
  fis_finite lam = true ->
  Forall (fun k => fis_finite k = true) (stages (order w') (k_ w')) ->
  fis_finite (s2_ w') = true ->
  fis_zero (u w') = true /\ feq (u w') f0 = true.
Proof.
  intros Hsz Hrun Hzero Hlam Hks Hs2. unfold order, u in *.
  pose proof (set_params_Ok _ _ _ _ _ Hsz Hrun) as Hpost.
  assert (Forall (fun t => fis_zero t = true) (stages (order_ w') (t_ w')))
    as Hts.
  { destruct Hzero as [(jk & jt & ->)|Hts]; [|done].
    apply Forall_lookup. intros m t Ht. unfold stages in Ht.
    apply lookup_take_Some in Ht as [Ht Hm].
    rewrite (sp_t_new _ _ _ _ _ Hpost) in Ht by (cbn [order_ waplns_new]; lia).
    by injection Ht as <-. }
  assert (fis_zero (next_u_ w') = true) as Hu.
  { rewrite (sp_next_u _ _ _ _ _ Hpost).
    apply to_float_zero, dmul_zero_finite; [|by apply to_double_finite].
    by apply lookahead_zero. }
  split; [done|by apply fis_zero_feq].
Qed.

(** The demonstration driver's configuration. *)
Lemma feedback_zero_after_set_params_witness :
  exists w',
    sized demo_new /\
    set_params demo_lambda 2 demo_k demo_new = Ok w' /\
    fis_finite demo_lambda = true /\
    Forall (fun k => fis_finite k = true) (stages (order w') (k_ w')) /\
    fis_finite (s2_ w') = true /\
    fis_zero (u w') = true /\ feq (u w') f0 = true.
Proof.
  destruct (set_params demo_lambda 2 demo_k demo_new) as [w'|f] eqn:Hrun;
    [|vm_compute in Hrun; discriminate].
  assert (sized demo_new) as Hsz by apply well_formed_new.
  assert (fis_finite demo_lambda = true) as Hlam by (by vm_compute).
  assert (Forall (fun k => fis_finite k = true) (stages (order w') (k_ w'))
          /\ fis_finite (s2_ w') = true) as [Hks Hs2].
  { pose proof Hrun as Hval. vm_compute in Hval. injection Hval as <-.
    split; [|by vm_compute].
    unfold order, stages. cbn [order_ k_ Z.to_nat Pos.to_nat Pos.iter_op
      Nat.add take].
    repeat constructor; by vm_compute. }
  exists w'. split; [exact Hsz|]. split; [reflexivity|].
  split; [exact Hlam|]. split; [exact Hks|]. split; [exact Hs2|].
  apply (feedback_zero_after_set_params demo_lambda 2 demo_k demo_new w'
           Hsz Hrun); [|exact Hlam|exact Hks|exact Hs2].
  left. by exists (fun _ => f0), (fun _ => f0).
Defined.

(* ===================================================================== *)
(** ** Further properties of the code *)
(* ===================================================================== *)

(** *** The coefficient accessor *)

Lemma k_inside w idx v :
  0 <= idx < order_ w -> k_ w !! Z.to_nat idx = Some v ->
  idx < max_wapl_filt_order ->
  k w idx = Ok (Returned v).
Proof.
  intros Hidx Hv Hmax. unfold k.
  replace ((0 <=? idx) && (idx <? order_ w)) with true
    by (symmetry; apply andb_true_iff; lia).
  unfold read_k.
  rewrite (proj2 (array_read_Ok k_out_of_range (k_ w) idx v)) by (split; [lia|done]).
  done.
Qed.

Lemma k_outside w idx :
  ~ 0 <= idx < order_ w -> k w idx = Ok AssertionFailed.
Proof.
  intros Hidx. unfold k.
  destruct ((0 <=? idx) && (idx <? order_ w)) eqn:Hc; [|done].
  apply andb_true_iff in Hc. lia.
Qed.

(** X1.  What [set_params] stored is what the accessors give back:
    [order()] is the requested order clamped to [MAX_ORDER], [lambda()] is
    the warping coefficient passed in, and [k(i)] returns the [i]-th
    coefficient supplied for every [i] in [[0, order())], while for any
    other index the assertion of [k] fails. *)
Theorem accessors_after_set_params lam ord newk w w' :
  sized w ->
  set_params lam ord newk w = Ok w' ->
  order w' = Z.min ord max_wapl_filt_order /\
  lambda w' = lam /\
  (forall i, 0 <= i < order w' ->
     exists v, newk !! Z.to_nat i = Some v /\ k w' i = Ok (Returned v)) /\
  (forall i, ~ 0 <= i < order w' -> k w' i = Ok AssertionFailed).
Proof.
  intros Hsz Hrun. unfold order, lambda.
  pose proof (set_params_Ok _ _ _ _ _ Hsz Hrun) as Hpost.
  destruct (set_params_Ok_inv _ _ _ _ _ Hsz Hrun) as [_ Hlen].
  pose proof (sp_order _ _ _ _ _ Hpost) as Ho.
  split; [done|]. split; [apply Hpost|]. split.
  - intros i Hi.
    destruct (lookup_lt_is_Some_2 newk (Z.to_nat i)) as [v Hv]; [lia|].
    exists v. split; [done|]. apply k_inside; [done| |lia].
    rewrite (sp_k_new _ _ _ _ _ Hpost) by lia. done.
  - intros i Hi. by apply k_outside.
Qed.

Lemma accessors_after_set_params_witness :
  exists w',
    sized demo_new /\
    set_params demo_lambda 2 demo_k demo_new = Ok w' /\
    order w' = 2 /\ lambda w' = demo_lambda /\
    k w' 1 = Ok (Returned (flit (-15) 100)) /\
    k w' 2 = Ok AssertionFailed.
Proof.
  destruct (set_params demo_lambda 2 demo_k demo_new) as [w'|f] eqn:Hrun;
    [|vm_compute in Hrun; discriminate].
  assert (sized demo_new) as Hsz by apply well_formed_new.
  destruct (accessors_after_set_params demo_lambda 2 demo_k demo_new w'
              Hsz Hrun) as (Ho & Hl & Hin & Hout).
  change (Z.min 2 max_wapl_filt_order) with 2 in Ho.
  exists w'. split; [exact Hsz|]. split; [reflexivity|].
  split; [exact Ho|]. split; [exact Hl|]. split.
  - destruct (Hin 1) as (v & Hv & Hk); [lia|].
    injection Hv as <-. exact Hk.
  - apply Hout. lia.
Defined.

(** X2.  On every filter reached from the constructor, whatever the calls
    and the orders they requested, [k(idx)] never reads outside [k_]: for
    an index in [[0, order())] it returns the stored cell, and for every
    other index (every index at all when the order is not positive) its
    assertion fails. *)
Theorem k_accessor_is_guarded junk_k junk_t h w idx :
  run h (waplns_new junk_k junk_t) = Ok w ->
  (0 <= idx < order w ->
     exists v, k_ w !! Z.to_nat idx = Some v /\ k w idx = Ok (Returned v)) /\
  (~ 0 <= idx < order w -> k w idx = Ok AssertionFailed).
Proof.
  intros Hrun. unfold order.
  assert (reached w) as Hre by (eapply run_reached; [apply reached_new|done]).
  split; [|apply k_outside]. intros Hidx.
  pose proof (re_order _ Hre) as Hord.
  destruct (lookup_lt_is_Some_2 (k_ w) (Z.to_nat idx)) as [v Hv].
  { rewrite (sz_k _ (re_sized _ Hre)). lia. }
  exists v. split; [done|]. apply k_inside; [done|done|lia].
Qed.

Lemma k_accessor_is_guarded_witness :
  exists w,
    run [SetParams demo_lambda (-1) demo_k] demo_new = Ok w /\
    k w 0 = Ok AssertionFailed /\ k w (-1) = Ok AssertionFailed.
Proof.
  destruct (run [SetParams demo_lambda (-1) demo_k] demo_new)
    as [w|f] eqn:Hrun; [|vm_compute in Hrun; discriminate].
  assert (order w = -1) as Ho
    by (vm_compute in Hrun; by injection Hrun as <-).
  exists w. split; [reflexivity|].
  split.
  - apply (k_accessor_is_guarded (fun _ => f0) (fun _ => f0) _ w 0 Hrun).
    rewrite Ho. lia.
  - apply (k_accessor_is_guarded (fun _ => f0) (fun _ => f0) _ w (-1) Hrun).
    rewrite Ho. lia.
Defined.

(** *** When [set_params] returns *)

(** X3.  [set_params] returns exactly when the caller supplied at least
    [min(ord, MAX_ORDER)] coefficients and the zeroing loop, if it runs at
    all, starts at a non-negative stored order; otherwise it reads the
    caller's array or writes [t_] out of range. *)
Theorem set_params_returns_iff lam ord newk w :
  sized w ->
  (exists w', set_params lam ord newk w = Ok w') <->
  set_params_defined ord newk w.
Proof.
  intros Hsz. split.
  - intros [w' Hrun]. by apply (set_params_Ok_inv lam ord newk w w').
  - intros [Hzero Hlen].
    destruct (set_params_total lam ord newk w Hsz Hzero Hlen) as (w' & Hrun & _).
    by exists w'.
Qed.

Lemma set_params_returns_iff_witness :
  sized demo_new /\
  (set_params_defined 2 demo_k demo_new ->
   exists w', set_params demo_lambda 2 demo_k demo_new = Ok w') /\
  ~ set_params_defined 3 demo_k demo_new.
Proof.
  assert (sized demo_new) as Hsz by apply well_formed_new.
  split; [exact Hsz|]. split.
  - apply (set_params_returns_iff demo_lambda 2 demo_k demo_new Hsz).
  - intros [_ Hlen]. vm_compute in Hlen. lia.
Defined.

(** X4.  Calling [set_params] a second time with the same arguments
    changes nothing: the second call returns the filter the first one
    left. *)
Theorem set_params_twice lam ord newk w w' :
  sized w ->
  set_params lam ord newk w = Ok w' ->
  set_params lam ord newk w' = Ok w'.
Proof.
  intros Hsz Hrun.
  pose proof (set_params_Ok _ _ _ _ _ Hsz Hrun) as P1.
  destruct (set_params_Ok_inv _ _ _ _ _ Hsz Hrun) as [_ Hlen].
  pose proof (sp_order _ _ _ _ _ P1) as Ho.
  destruct (set_params_total lam ord newk w' (sp_sized _ _ _ _ _ P1))
    as (w2 & Hrun2 & P2); [lia|done|].
  rewrite Hrun2. f_equal.
  assert (order_ w2 = order_ w') as Ho2
    by (rewrite (sp_order _ _ _ _ _ P2); done).
  assert (k_ w2 = k_ w') as Hk.
  { apply list_eq. intros m.
    destruct (decide (m < Z.to_nat (order_ w2))%nat) as [Hlt|Hge].
    - rewrite (sp_k_new _ _ _ _ _ P2) by done.
      rewrite (sp_k_new _ _ _ _ _ P1) by lia. done.
    - by rewrite (sp_k_old _ _ _ _ _ P2) by lia. }
  assert (t_ w2 = t_ w') as Ht.
  { apply list_eq. intros m. apply (sp_t_old _ _ _ _ _ P2). lia. }
  assert (lambda_ w2 = lambda_ w') as Hl
    by (rewrite (sp_lambda _ _ _ _ _ P1); apply P2).
  assert (s1_ w2 = s1_ w') as H1
    by (rewrite (sp_s1 _ _ _ _ _ P1); apply P2).
  assert (s2_ w2 = s2_ w') as H2
    by (rewrite (sp_s2 _ _ _ _ _ P1), (sp_s2 _ _ _ _ _ P2), Ho2, Hk; done).
  assert (next_u_ w2 = next_u_ w') as Hu.
  { rewrite (sp_next_u _ _ _ _ _ P1), (sp_next_u _ _ _ _ _ P2).
    by rewrite Ho2, Hk, Ht, H2. }
  destruct w2, w'. cbn in *. congruence.
Qed.

Lemma set_params_twice_witness :
  exists w w',
    run [SetParams demo_lambda 1 demo_k; XWas f1] demo_new = Ok w /\
    sized w /\
    set_params demo_lambda 2 demo_k w = Ok w' /\
    set_params demo_lambda 2 demo_k w' = Ok w'.
Proof.
  destruct (run [SetParams demo_lambda 1 demo_k; XWas f1] demo_new)
    as [w|f] eqn:Hrun; [|vm_compute in Hrun; discriminate].
  assert (sized w) as Hsz.
  { apply (re_sized w). eapply run_reached; [apply reached_new|exact Hrun]. }
  destruct (set_params demo_lambda 2 demo_k w) as [w'|f] eqn:Hset.
  2:{ vm_compute in Hrun. injection Hrun as <-.
      vm_compute in Hset. discriminate. }
  exists w, w'. split; [reflexivity|]. split; [exact Hsz|].
  split; [exact Hset|].
  exact (set_params_twice demo_lambda 2 demo_k w w' Hsz Hset).
Defined.

(** *** The pending feedback and the delays *)

(** The look-ahead accumulators of [x_was] are those of the feedback pass
    of [set_params] over the delays as [x_was] leaves them. *)
Lemma recurrence_lookahead lam : forall ks ts a b nua nub ts' a' b' nua' nub',
  recurrence lam ks ts a b nua nub = (ts', (a', b', nua', nub')) ->
  lookahead lam ks ts' nua nub = (nua', nub').
Proof.
  induction ks as [|c ks IH]; intros [|t ts] a b nua nub ts' a' b' nua' nub';
    cbn [recurrence]; try (intros [= <- <- <- <- <-]; done).
  destruct (allpass lam b t) as [b1 nt].
  destruct (allpass lam nub nt) as [nub1 nt'] eqn:Hnub.
  destruct (butterfly a b1 c) as [a2 b2].
  destruct (butterfly nua nub1 c) as [nua2 nub2] eqn:Hbf.
  destruct (recurrence lam ks ts a2 b2 nua2 nub2) as [ts2 acc] eqn:Hrec.
  intros [= <- ->]. cbn [lookahead]. rewrite Hnub, Hbf.
  eapply IH. exact Hrec.
Qed.

Lemma x_was_feedback x w w' :
  sized w -> order_ w <= max_wapl_filt_order ->
  x_was x w = Ok w' ->
  next_u_ w' = feedback_of w' /\
  order_ w' = order_ w /\ lambda_ w' = lambda_ w /\ k_ w' = k_ w /\
  s1_ w' = s1_ w /\ s2_ w' = s2_ w.
Proof.
  intros Hsz Hord Hrun. rewrite x_was_total in Hrun by done.
  injection Hrun as <-. unfold feedback_of, x_was_spec.
  set (a0 := dmul _ _).
  pose proof (recurrence_length (lambda_ w) (stages (order_ w) (k_ w))
                (stages (order_ w) (t_ w)) a0 a0 d0 d0) as Hlen.
  destruct (recurrence _ _ _ a0 a0 d0 d0) as [ts [[[a b] nua] nub]] eqn:Hrec.
  apply recurrence_lookahead in Hrec.
  cbn [fst] in Hlen. unfold stages in Hlen. rewrite !length_take in Hlen.
  destruct Hsz as [Hk Ht].
  assert (Z.to_nat (order_ w) = length ts) as Hts by lia.
  unfold set_next_u, set_t. cbn [order_ lambda_ k_ s1_ s2_ t_ next_u_].
  split; [|done].
  unfold stages at 2. rewrite take_app_length' by done.
  by rewrite Hrec.
Qed.

(** X5.  The feedback [x_was] leaves pending is a function of the delays it
    leaves: it is what the feedback loop of [set_params] computes from the
    stored coefficients, [lambda], [scaleOut] and the new delays: the
    look-ahead accumulators of the one loop are the accumulators of the
    other. *)
Theorem x_was_feedback_of_delays x w w' :
  sized w ->
  order w <= max_wapl_filt_order ->
  x_was x w = Ok w' ->
  u w' = feedback_of w'.
Proof.
  intros Hsz Hord Hrun. by apply (x_was_feedback x w w').
Qed.

Lemma x_was_feedback_of_delays_witness :
  exists w w',
    run demo_history demo_new = Ok w /\
    sized w /\ order w <= max_wapl_filt_order /\
    x_was f1 w = Ok w' /\ u w' = feedback_of w'.
Proof.
  destruct (run demo_history demo_new) as [w|f] eqn:Hrun;
    [|vm_compute in Hrun; discriminate].
  assert (reached w) as Hre
    by (eapply run_reached; [apply reached_new|exact Hrun]).
  destruct (x_was_frame f1 w (re_order _ Hre) (re_sized _ Hre))
    as (w' & Hx & _).
  exists w, w'. split; [reflexivity|].
  split; [exact (re_sized _ Hre)|]. split; [exact (re_order _ Hre)|].
  split; [exact Hx|].
  exact (x_was_feedback_of_delays f1 w w' (re_sized _ Hre) (re_order _ Hre) Hx).
Defined.

(** *** What every reached filter satisfies *)

Lemma scale_of_reached h : forall w w',
  s2_ w = scale_of w -> reached w ->
  run h w = Ok w' -> s2_ w' = scale_of w'.
Proof.
  induction h as [|c h IH]; intros w w' Hs Hre Hrun.
  - by injection Hrun as <-.
  - cbn [run] in Hrun. apply bind_Ok in Hrun as (w1 & Hc & Hrun).
    apply (IH w1); [|by eapply do_call_reached|done].
    destruct Hre as [Hsz Hord _ _ _].
    destruct c as [lam ord newk|junk lam ord it| |x]; cbn [do_call] in Hc.
    + destruct (set_params_Ok _ _ _ _ _ Hsz Hc) as [_ Hl _ H2 _ _ _ _ _ _].
      unfold scale_of. by rewrite Hl.
    + apply set_params_iter_Ok in Hc as (temp & Hc).
      destruct (set_params_Ok _ _ _ _ _ Hsz Hc) as [_ Hl _ H2 _ _ _ _ _ _].
      unfold scale_of. by rewrite Hl.
    + destruct (reset_state_frame w Hord Hsz)
        as (v & Hv & _ & Ho & Hl & Hk & _ & H2 & _).
      assert (v = w1) as -> by congruence.
      unfold scale_of. by rewrite H2, Ho, Hl, Hk.
    + destruct (x_was_frame x w Hord Hsz)
        as (v & Hv & _ & Ho & Hl & Hk & _ & H2 & _).
      assert (v = w1) as -> by congruence.
      unfold scale_of. by rewrite H2, Ho, Hl, Hk.
Qed.

(** X6.  The derived scales are never stale and the order never exceeds
    [MAX_ORDER]: on every filter reached from the constructor, whatever
    the calls, [order() <= MAX_ORDER], [scaleIn] is 1 and [scaleOut] is
    the value [precompute_derived_params] computes from the [lambda],
    order and coefficients the filter holds at that moment. *)
Theorem scales_never_stale junk_k junk_t h w :
  run h (waplns_new junk_k junk_t) = Ok w ->
  order w <= max_wapl_filt_order /\
  s1_ w = f1 /\
  s2_ w = scale_of w.
Proof.
  intros Hrun.
  assert (reached w) as Hre by (eapply run_reached; [apply reached_new|done]).
  split; [apply Hre|]. split; [apply Hre|].
  by apply (scale_of_reached h (waplns_new junk_k junk_t) w);
    [|apply reached_new|].
Qed.

Lemma scales_never_stale_witness :
  exists w,
    run (demo_history ++ [XWas f1; ResetState; XWas f0]) demo_new = Ok w /\
    s1_ w = f1 /\ s2_ w = scale_of w.
Proof.
  destruct (run (demo_history ++ [XWas f1; ResetState; XWas f0]) demo_new)
    as [w|f] eqn:Hrun; [|vm_compute in Hrun; discriminate].
  exists w. split; [reflexivity|].
  exact (proj2 (scales_never_stale (fun _ => f0) (fun _ => f0) _ w Hrun)).
Defined.

(** X7.  Sending a filter the parameters it already holds changes nothing
    whenever the last call was [x_was] or [set_params] (either overload):
    [set_params(lambda(), order(), k_)] then returns the very same filter,
    delays and pending feedback included. *)
Theorem resend_parameters junk_k junk_t h c w :
  c <> ResetState ->
  run (h ++ [c]) (waplns_new junk_k junk_t) = Ok w ->
  set_params (lambda w) (order w) (k_ w) w = Ok w.
Proof.
  intros Hc Hrun. unfold lambda, order.
  assert (reached w) as Hre by (eapply run_reached; [apply reached_new|done]).
  assert (s2_ w = scale_of w) as Hs2.
  { by apply (scale_of_reached (h ++ [c]) (waplns_new junk_k junk_t) w);
      [|apply reached_new|]. }
  rewrite run_app in Hrun. apply bind_Ok in Hrun as (w0 & H0 & Hrun).
  assert (reached w0) as Hre0
    by (eapply run_reached; [apply reached_new|done]).
  cbn [run] in Hrun. apply bind_Ok in Hrun as (w1 & Hlast & [= ->]).
  assert (next_u_ w = feedback_of w) as Hu.
  { destruct Hre0 as [Hsz0 Hord0 _ _ _].
    destruct c as [lam ord newk|junk lam ord it| |x]; cbn [do_call] in Hlast.
    - pose proof (set_params_Ok _ _ _ _ _ Hsz0 Hlast) as P.
      unfold feedback_of. rewrite (sp_lambda _ _ _ _ _ P). apply P.
    - apply set_params_iter_Ok in Hlast as (temp & Hlast).
      pose proof (set_params_Ok _ _ _ _ _ Hsz0 Hlast) as P.
      unfold feedback_of. rewrite (sp_lambda _ _ _ _ _ P). apply P.
    - done.
    - by apply (x_was_feedback x w0 w). }
  destruct Hre as [Hsz Hord H1 _ _].
  assert (Z.min (order_ w) max_wapl_filt_order = order_ w) as Hmin by lia.
  destruct (set_params_total (lambda_ w) (order_ w) (k_ w) w Hsz)
    as (w2 & Hrun2 & P2); [lia|rewrite (sz_k _ Hsz); lia|].
  rewrite Hrun2. f_equal.
  assert (order_ w2 = order_ w) as Ho2
    by (rewrite (sp_order _ _ _ _ _ P2); done).
  assert (k_ w2 = k_ w) as Hk.
  { apply list_eq. intros m.
    destruct (decide (m < Z.to_nat (order_ w2))%nat) as [Hlt|Hge].
    - by rewrite (sp_k_new _ _ _ _ _ P2) by done.
    - by rewrite (sp_k_old _ _ _ _ _ P2) by lia. }
  assert (t_ w2 = t_ w) as Ht.
  { apply list_eq. intros m. apply (sp_t_old _ _ _ _ _ P2). lia. }
  pose proof (sp_lambda _ _ _ _ _ P2) as Hl.
  assert (s1_ w2 = s1_ w) as Hs1 by (rewrite H1; apply P2).
  assert (s2_ w2 = s2_ w) as H2.
  { rewrite (sp_s2 _ _ _ _ _ P2), Hs2. unfold scale_of.
    by rewrite Ho2, Hk. }
  assert (next_u_ w2 = next_u_ w) as Hu2.
  { rewrite (sp_next_u _ _ _ _ _ P2), Hu. unfold feedback_of.
    by rewrite Ho2, Hk, Ht, H2. }
  destruct w2, w. cbn in *. congruence.
Qed.

Lemma resend_parameters_witness :
  exists w,
    XWas f1 <> ResetState /\
    run (demo_history ++ [XWas f1]) demo_new = Ok w /\
    set_params (lambda w) (order w) (k_ w) w = Ok w.
Proof.
  destruct (run (demo_history ++ [XWas f1]) demo_new) as [w|f] eqn:Hrun;
    [|vm_compute in Hrun; discriminate].
  assert (XWas f1 <> ResetState) as Hc by discriminate.
  exists w. split; [exact Hc|]. split; [reflexivity|].
  exact (resend_parameters (fun _ => f0) (fun _ => f0) demo_history
           (XWas f1) w Hc Hrun).
Defined.

(** After [reset_state] this can fail: the pending feedback is then the
    literal 0, not the feedback of the delays (here a NaN, [scaleOut]
    being infinite). *)
Example resend_after_reset_differs :
  exists w w',
    run [SetParams demo_lambda 1 [flit (-2) 1]; ResetState] demo_new = Ok w /\
    set_params (lambda w) (order w) (k_ w) w = Ok w' /\
    u w = f0 /\ u w' = Float S754_nan.
Proof.
  destruct (run [SetParams demo_lambda 1 [flit (-2) 1]; ResetState] demo_new)
    as [w|f] eqn:Hrun; [|vm_compute in Hrun; discriminate].
  vm_compute in Hrun. injection Hrun as <-.
  eexists _, _. split; [reflexivity|]. split; [by vm_compute|].
  split; reflexivity.
Qed.

(** *** A filter at rest *)

Lemma allpass_zero_delay lam io t :
  fis_finite lam = true -> dis_zero io = true -> fis_zero t = true ->
  fis_zero (snd (allpass lam io t)) = true.
Proof.
  intros Hlam%fis_finite_bits Hio Ht. unfold allpass. cbn [snd].
  apply to_float_zero, dadd_zero_zero; [done|].
  by apply to_double_zero, fmul_finite_zero.
Qed.

Lemma recurrence_zero lam : forall ks ts a b nua nub,
  fis_finite lam = true ->
  Forall (fun c => fis_finite c = true) ks ->
  Forall (fun t => fis_zero t = true) ts ->
  dis_zero a = true -> dis_zero b = true ->
  dis_zero nua = true -> dis_zero nub = true ->
  Forall (fun t => fis_zero t = true)
         (fst (recurrence lam ks ts a b nua nub)) /\
  dis_zero (snd (fst (snd (recurrence lam ks ts a b nua nub)))) = true.
Proof.
  induction ks as [|c ks IH]; intros [|t ts] a b nua nub Hlam Hks Hts
    Ha Hb Hnua Hnub; try (by split).
  apply Forall_cons in Hks as [Hc Hks]. apply Forall_cons in Hts as [Ht Hts].
  cbn [recurrence].
  pose proof (allpass_zero lam b t Hlam Hb Ht) as Hb1.
  pose proof (allpass_zero_delay lam b t Hlam Hb Ht) as Hnt.
  destruct (allpass lam b t) as [b1 nt]. cbn [fst snd] in Hb1, Hnt.
  pose proof (allpass_zero lam nub nt Hlam Hnub Hnt) as Hnub1.
  destruct (allpass lam nub nt) as [nub1 nt']. cbn [fst] in Hnub1.
  pose proof (butterfly_zero a b1 c Ha Hb1 Hc) as [Ha2 Hb2].
  destruct (butterfly a b1 c) as [a2 b2]. cbn [fst snd] in Ha2, Hb2.
  pose proof (butterfly_zero nua nub1 c Hnua Hnub1 Hc) as [Hnua2 Hnub2].
  destruct (butterfly nua nub1 c) as [nua2 nub2]. cbn [fst snd] in Hnua2, Hnub2.
  specialize (IH ts a2 b2 nua2 nub2 Hlam Hks Hts Ha2 Hb2 Hnua2 Hnub2).
  destruct (recurrence lam ks ts a2 b2 nua2 nub2) as [ts2 [[[a3 b3] nua3] nub3]].
  cbn [fst snd] in *. destruct IH as [IH1 IH2].
  split; [by apply Forall_cons|done].
Qed.

Lemma x_was_at_rest x w :
  reached w -> finite_config w -> at_rest w -> fis_zero x = true ->
  exists w',
    x_was x w = Ok w' /\ reached w' /\ finite_config w' /\ at_rest w'.
Proof.
  intros Hre (Hlam & Hks & Hs2) [Hts Hu] Hx.
  pose proof (re_sized _ Hre) as Hsz. pose proof (re_order _ Hre) as Hord.
  exists (x_was_spec x w).
  assert (x_was x w = Ok (x_was_spec x w)) as Hrun by (by apply x_was_total).
  split; [done|].
  split; [by apply (do_call_reached (XWas x) w)|].
  destruct (x_was_feedback x w _ Hsz Hord Hrun)
    as (_ & Ho & Hl & Hk & _ & H2).
  split.
  { unfold finite_config. by rewrite Ho, Hl, Hk, H2. }
  unfold at_rest. rewrite Ho. clear Hrun Ho Hl Hk H2.
  unfold x_was_spec. rewrite (re_s1 _ Hre).
  set (a0 := dmul _ _).
  assert (dis_zero a0 = true) as Ha0.
  { apply dmul_zero_finite; [|done].
    by apply dsub_zero_zero; apply to_double_zero. }
  pose proof (recurrence_zero (lambda_ w) (stages (order_ w) (k_ w))
                (stages (order_ w) (t_ w)) a0 a0 d0 d0
                Hlam Hks Hts Ha0 Ha0 eq_refl eq_refl) as [Hts' Hnua].
  pose proof (recurrence_length (lambda_ w) (stages (order_ w) (k_ w))
                (stages (order_ w) (t_ w)) a0 a0 d0 d0) as Hlen.
  destruct (recurrence _ _ _ a0 a0 d0 d0) as [ts [[[a b] nua] nub]].
  cbn [fst snd] in *. unfold stages in Hlen. rewrite !length_take in Hlen.
  destruct Hsz as [Hk Ht].
  assert (Z.to_nat (order_ w) = length ts) as Hlen' by lia.
  unfold set_next_u, set_t. cbn [t_ next_u_]. split.
  - unfold stages. by rewrite take_app_length' by done.
  - apply to_float_zero, dmul_zero_finite; [done|].
    by apply to_double_finite.
Qed.

(** X8.  A filter at rest stays at rest under silence: when [lambda], the
    active coefficients and [scaleOut] are finite numbers and the active
    delays and the pending feedback are zeros (as after [reset_state]),
    any number of [x_was] calls with zero input returns and leaves the
    active delays and [u()] zeros. *)
Theorem silence_keeps_rest junk_k junk_t h w xs :
  run h (waplns_new junk_k junk_t) = Ok w ->
  finite_config w ->
  at_rest w ->
  Forall (fun x => fis_zero x = true) xs ->
  exists w',
    run (map XWas xs) w = Ok w' /\ at_rest w' /\ feq (u w') f0 = true.
Proof.
  intros Hrun Hfin Hrest Hxs.
  assert (reached w) as Hre by (eapply run_reached; [apply reached_new|done]).
  clear Hrun. revert w Hre Hfin Hrest.
  induction Hxs as [|x xs Hx Hxs IH]; intros w Hre Hfin Hrest.
  - exists w. split; [done|]. split; [done|].
    apply fis_zero_feq, Hrest.
  - destruct (x_was_at_rest x w Hre Hfin Hrest Hx)
      as (w1 & Hrun1 & Hre1 & Hfin1 & Hrest1).
    destruct (IH w1 Hre1 Hfin1 Hrest1) as (w' & Hrun' & Hrest' & Hu').
    exists w'. cbn [map run do_call]. rewrite Hrun1. by cbn [mbind result_bind].
Qed.

Lemma silence_keeps_rest_witness :
  exists w w',
    run (demo_history ++ [XWas f1; ResetState]) demo_new = Ok w /\
    finite_config w /\ at_rest w /\
    Forall (fun x => fis_zero x = true) [f0; fneg f0; f0] /\
    run (map XWas [f0; fneg f0; f0]) w = Ok w' /\ at_rest w'.
Proof.
  destruct (run (demo_history ++ [XWas f1; ResetState]) demo_new)
    as [w|f] eqn:Hrun; [|vm_compute in Hrun; discriminate].
  assert (finite_config w /\ at_rest w) as [Hfin Hrest].
  { pose proof Hrun as Hval. vm_compute in Hval. injection Hval as <-.
    unfold finite_config, at_rest, stages.
    cbn [order_ lambda_ k_ s2_ t_ next_u_ Z.to_nat Pos.to_nat Pos.iter_op
         Nat.add take].
    repeat split; repeat constructor; by vm_compute. }
  assert (Forall (fun x => fis_zero x = true) [f0; fneg f0; f0]) as Hxs
    by (repeat constructor).
  destruct (silence_keeps_rest (fun _ => f0) (fun _ => f0) _ w
              [f0; fneg f0; f0] Hrun Hfin Hrest Hxs)
    as (w' & Hrun' & Hrest' & _).
  exists w, w'. split; [reflexivity|]. split; [exact Hfin|].
  split; [exact Hrest|]. split; [exact Hxs|].
  split; [exact Hrun'|exact Hrest'].
Defined.

(** *** NaN *)

Lemma dsub_nan a b :
  dis_nan a = true \/ dis_nan b = true -> dis_nan (dsub a b) = true.
Proof.
  destruct a as [[]], b as [[]]; cbn; intros [|]; try discriminate; done.
Qed.

Lemma dadd_nan a b :
  dis_nan a = true \/ dis_nan b = true -> dis_nan (dadd a b) = true.
Proof.
  destruct a as [[]], b as [[]]; cbn; intros [|]; try discriminate; done.
Qed.

Lemma dmul_nan a b :
  dis_nan a = true \/ dis_nan b = true -> dis_nan (dmul a b) = true.
Proof.
  destruct a as [[]], b as [[]]; cbn; intros [|]; try discriminate; done.
Qed.

Lemma fmul_nan a b :
  fis_nan a = true \/ fis_nan b = true -> fis_nan (fmul a b) = true.
Proof.
  destruct a as [[]], b as [[]]; cbn; intros [|]; try discriminate; done.
Qed.

Lemma fsub_nan a b :
  fis_nan a = true \/ fis_nan b = true -> fis_nan (fsub a b) = true.
Proof.
  destruct a as [[]], b as [[]]; cbn; intros [|]; try discriminate; done.
Qed.

Lemma to_double_nan x : fis_nan x = true -> dis_nan (to_double x) = true.
Proof. destruct x as [[]]; cbn; try discriminate; done. Qed.

Lemma to_float_nan x : dis_nan x = true -> fis_nan (to_float x) = true.
Proof. destruct x as [[]]; cbn; try discriminate; done. Qed.

Create HintDb nan.
#[local] Hint Resolve dsub_nan dadd_nan dmul_nan fmul_nan fsub_nan
  to_double_nan to_float_nan : nan.

(** The all-pass hands a NaN on, in the signal or in the delay. *)
Lemma allpass_nan lam io t :
  dis_nan io = true \/ fis_nan t = true ->
  dis_nan (fst (allpass lam io t)) = true /\
  fis_nan (snd (allpass lam io t)) = true.
Proof.
  intros H. unfold allpass. cbn [fst snd].
  assert (fis_nan (to_float (dadd io (to_double (fmul lam t)))) = true) as Hnt.
  { destruct H; auto 10 with nan. }
  split; [|done]. auto 10 with nan.
Qed.

Lemma butterfly_nan_l a b c :
  dis_nan a = true -> dis_nan (fst (butterfly a b c)) = true.
Proof. intros H. unfold butterfly. cbn [fst]. auto with nan. Qed.

Lemma butterfly_nan_r a b c :
  dis_nan b = true ->
  dis_nan (fst (butterfly a b c)) = true /\
  dis_nan (snd (butterfly a b c)) = true.
Proof. intros H. unfold butterfly. cbn [fst snd]. auto 10 with nan. Qed.

(** Once NaN, the look-ahead accumulator stays NaN through the stages. *)
Lemma recurrence_nua_nan lam : forall ks ts a b nua nub,
  dis_nan nua = true ->
  dis_nan (snd (fst (snd (recurrence lam ks ts a b nua nub)))) = true.
Proof.
  induction ks as [|c ks IH]; intros [|t ts] a b nua nub Hnua; try done.
  cbn [recurrence].
  destruct (allpass lam b t) as [b1 nt].
  destruct (allpass lam nub nt) as [nub1 nt'].
  destruct (butterfly a b1 c) as [a2 b2].
  pose proof (butterfly_nan_l nua nub1 c Hnua) as Hnua2.
  destruct (butterfly nua nub1 c) as [nua2 nub2]. cbn [fst] in Hnua2.
  specialize (IH ts a2 b2 nua2 nub2 Hnua2).
  by destruct (recurrence lam ks ts a2 b2 nua2 nub2) as [ts2 [[[a3 b3] nua3] nub3]].
Qed.

Lemma lookahead_nua_nan lam : forall ks ts nua nub,
  dis_nan nua = true ->
  dis_nan (fst (lookahead lam ks ts nua nub)) = true.
Proof.
  induction ks as [|c ks IH]; intros [|t ts] nua nub Hnua; try done.
  cbn [lookahead].
  destruct (allpass lam nub t) as [nub1 nt].
  pose proof (butterfly_nan_l nua nub1 c Hnua) as Hnua2.
  destruct (butterfly nua nub1 c) as [nua2 nub2]. cbn [fst] in Hnua2.
  by apply IH.
Qed.

(** A NaN entering the first stage reaches its delay and the look-ahead
    accumulator. *)
Lemma recurrence_nan lam c ks t ts a b nua nub :
  dis_nan b = true ->
  (exists nt ts', fst (recurrence lam (c :: ks) (t :: ts) a b nua nub)
                  = nt :: ts' /\ fis_nan nt = true) /\
  dis_nan (snd (fst (snd (recurrence lam (c :: ks) (t :: ts) a b nua nub))))
    = true.
Proof.
  intros Hb. cbn [recurrence].
  pose proof (allpass_nan lam b t (or_introl Hb)) as [_ Hnt].
  destruct (allpass lam b t) as [b1 nt]. cbn [snd] in Hnt.
  pose proof (allpass_nan lam nub nt (or_intror Hnt)) as [Hnub1 _].
  destruct (allpass lam nub nt) as [nub1 nt']. cbn [fst] in Hnub1.
  destruct (butterfly a b1 c) as [a2 b2].
  pose proof (butterfly_nan_r nua nub1 c Hnub1) as [Hnua2 _].
  destruct (butterfly nua nub1 c) as [nua2 nub2]. cbn [fst] in Hnua2.
  pose proof (recurrence_nua_nan lam ks ts a2 b2 nua2 nub2 Hnua2) as Hrec.
  destruct (recurrence lam ks ts a2 b2 nua2 nub2) as [ts2 [[[a3 b3] nua3] nub3]].
  cbn [fst snd] in *. split; [|done]. by exists nt, ts2.
Qed.

Lemma lookahead_nan lam c ks t ts nua nub :
  fis_nan t = true ->
  dis_nan (fst (lookahead lam (c :: ks) (t :: ts) nua nub)) = true.
Proof.
  intros Ht. cbn [lookahead].
  pose proof (allpass_nan lam nub t (or_intror Ht)) as [Hnub1 _].
  destruct (allpass lam nub t) as [nub1 nt]. cbn [fst] in Hnub1.
  pose proof (butterfly_nan_r nua nub1 c Hnub1) as [Hnua2 _].
  destruct (butterfly nua nub1 c) as [nua2 nub2]. cbn [fst] in Hnua2.
  by apply lookahead_nua_nan.
Qed.

Lemma stages_cons n (a : list float) x :
  1 <= n -> a !! 0%nat = Some x ->
  exists rest, stages n a = x :: rest.
Proof.
  intros Hn Ha. destruct a as [|y a]; [done|]. injection Ha as ->.
  unfold stages. destruct (Z.to_nat n) as [|m] eqn:E; [lia|].
  cbn [take]. eauto.
Qed.

Lemma sized_head w :
  sized w -> exists c t, k_ w !! 0%nat = Some c /\ t_ w !! 0%nat = Some t.
Proof.
  intros [Hk Ht]. unfold max_wapl_filt_order in *.
  destruct (k_ w) as [|c ?]; [done|]. destruct (t_ w) as [|t ?]; [done|].
  by exists c, t.
Qed.

Lemma x_was_poisons x w :
  sized w -> 1 <= order_ w ->
  fis_nan x = true \/ fis_nan (next_u_ w) = true ->
  poisoned (x_was_spec x w).
Proof.
  intros Hsz Hord Hnan.
  destruct (sized_head w Hsz) as (c & t & Hc & Ht).
  destruct (stages_cons (order_ w) (k_ w) c Hord Hc) as [ks Hks].
  destruct (stages_cons (order_ w) (t_ w) t Hord Ht) as [ts Hts].
  unfold x_was_spec. rewrite Hks, Hts.
  set (a0 := dmul _ _).
  assert (dis_nan a0 = true) as Ha0.
  { apply dmul_nan. left. apply dsub_nan. destruct Hnan; auto with nan. }
  destruct (recurrence_nan (lambda_ w) c ks t ts a0 a0 d0 d0 Ha0)
    as [(nt & ts' & Hrec & Hnt) Hnua].
  destruct (recurrence _ _ _ a0 a0 d0 d0) as [ts2 [[[a b] nua] nub]].
  cbn [fst snd] in *. subst ts2.
  unfold poisoned, set_next_u, set_t. cbn [order_ t_ next_u_].
  split; [done|]. split; [by exists nt|]. auto with nan.
Qed.

Lemma set_params_post_poisoned lam ord newk w w' :
  1 <= ord -> poisoned w ->
  set_params_post lam ord newk w w' -> poisoned w'.
Proof.
  intros Hord (Ho & (t & Ht & Hnan) & _) P.
  assert (1 <= order_ w') as Ho'.
  { rewrite (sp_order _ _ _ _ _ P). unfold max_wapl_filt_order. lia. }
  assert (t_ w' !! 0%nat = Some t) as Ht'.
  { rewrite (sp_t_old _ _ _ _ _ P) by lia. done. }
  split; [done|]. split; [by exists t|].
  destruct (sized_head w' (sp_sized _ _ _ _ _ P)) as (c & t0 & Hc & _).
  destruct (stages_cons (order_ w') (k_ w') c Ho' Hc) as [ks Hks].
  destruct (stages_cons (order_ w') (t_ w') t Ho' Ht') as [ts Hts].
  rewrite (sp_next_u _ _ _ _ _ P), Hks, Hts.
  apply to_float_nan, dmul_nan. left. by apply lookahead_nan.
Qed.

Lemma do_call_poisoned c w w' :
  reached w -> keeps_stage c -> poisoned w ->
  do_call c w = Ok w' -> poisoned w'.
Proof.
  intros Hre Hc Hp Hrun. pose proof (re_sized _ Hre) as Hsz.
  destruct c as [lam ord newk|junk lam ord it| |x]; cbn [do_call keeps_stage] in *.
  - eapply set_params_post_poisoned; [exact Hc|exact Hp|].
    by apply set_params_Ok.
  - apply set_params_iter_Ok in Hrun as [temp Hrun].
    eapply (set_params_post_poisoned lam (Z.min ord max_wapl_filt_order));
      [unfold max_wapl_filt_order; lia|exact Hp|].
    by apply set_params_Ok.
  - done.
  - rewrite x_was_total in Hrun by (done || apply Hre).
    injection Hrun as <-. destruct Hp as (Ho & _ & Hu).
    apply x_was_poisons; auto.
Qed.

(** X9.  A NaN input poisons the filter.  On a filter with at least one
    active stage, after [x_was(x)] with [x] a NaN, [u()] is NaN, and it
    is still NaN after any further [x_was] calls and [set_params] calls
    that request at least one stage: [set_params] never clears a delay
    that was active, so the NaN in [t_[0]] comes back through the
    feedback pass.  ([reset_state] and an order below 1 are left out:
    they set [u()] to 0.) *)
Theorem nan_input_is_sticky junk_k junk_t h w x cs w' :
  run h (waplns_new junk_k junk_t) = Ok w ->
  1 <= order w ->
  fis_nan x = true ->
  Forall keeps_stage cs ->
  run (XWas x :: cs) w = Ok w' ->
  fis_nan (u w') = true.
Proof.
  intros Hrun Hord Hx Hcs Hrun'.
  assert (reached w) as Hre by (eapply run_reached; [apply reached_new|done]).
  cbn [run do_call] in Hrun'.
  rewrite x_was_total in Hrun' by apply Hre.
  cbn [mbind result_bind] in Hrun'.
  assert (reached (x_was_spec x w)) as Hre1.
  { apply (do_call_reached (XWas x) w); [done|]. cbn [do_call].
    apply x_was_total; apply Hre. }
  assert (poisoned (x_was_spec x w)) as Hp
    by (apply x_was_poisons; [apply Hre|done|by left]).
  clear Hrun Hre Hord. revert Hre1 Hp Hrun'. generalize (x_was_spec x w).
  induction Hcs as [|c cs Hc Hcs IH]; intros w1 Hre1 Hp Hrun'.
  - injection Hrun' as <-. apply Hp.
  - cbn [run] in Hrun'. apply bind_Ok in Hrun' as (w2 & Hc2 & Hrun').
    apply (IH w2); [by apply (do_call_reached c w1)| |done].
    by apply (do_call_poisoned c w1).
Qed.

Lemma nan_input_is_sticky_witness :
  exists w w',
    run demo_history demo_new = Ok w /\ 1 <= order w /\
    run [XWas (Float S754_nan); XWas f1;
         SetParams demo_lambda 1 [f0]; XWas f0] w = Ok w' /\
    fis_nan (u w') = true.
Proof.
  destruct (run demo_history demo_new) as [w|f] eqn:Hrun;
    [|vm_compute in Hrun; discriminate].
  destruct (run [XWas (Float S754_nan); XWas f1;
                 SetParams demo_lambda 1 [f0]; XWas f0] w)
    as [w'|f] eqn:Hrun';
    [|vm_compute in Hrun; injection Hrun as <-;
      vm_compute in Hrun'; discriminate].
  assert (1 <= order w) as Hord
    by (vm_compute in Hrun; injection Hrun as <-; by vm_compute).
  exists w, w'. split; [reflexivity|]. split; [exact Hord|].
  split; [exact Hrun'|].
  apply (nan_input_is_sticky (fun _ => f0) (fun _ => f0) demo_history w
           (Float S754_nan)
           [XWas f1; SetParams demo_lambda 1 [f0]; XWas f0] w').
  - exact Hrun.
  - exact Hord.
  - reflexivity.
  - repeat constructor; cbn [keeps_stage]; lia.
  - exact Hrun'.
Defined.

(** *** Calls that cannot go wrong *)

(** X10.  Whatever calls came before (also a [set_params] with a negative
    order, after which [set_params] itself can leave the arrays), [x_was]
    and [reset_state] return without touching an element outside the
    arrays, and neither changes the configuration: [order()],
    [lambda()], the coefficients and [warp_gain()] are as before. *)
Theorem x_was_and_reset_state_return junk_k junk_t h w x :
  run h (waplns_new junk_k junk_t) = Ok w ->
  exists w1 w2,
    x_was x w = Ok w1 /\ reset_state w = Ok w2 /\
    (order w1 = order w /\ lambda w1 = lambda w /\ k_ w1 = k_ w /\
     warp_gain w1 = warp_gain w) /\
    (order w2 = order w /\ lambda w2 = lambda w /\ k_ w2 = k_ w /\
     warp_gain w2 = warp_gain w) /\
    u w2 = f0.
Proof.
  intros Hrun.
  assert (reached w) as Hre by (eapply run_reached; [apply reached_new|done]).
  destruct (x_was_frame x w (re_order _ Hre) (re_sized _ Hre))
    as (w1 & Hx & _ & Ho1 & Hl1 & Hk1 & Hs1 & Hs2 & _).
  destruct (reset_state_frame w (re_order _ Hre) (re_sized _ Hre))
    as (w2 & Hr & _ & Ho2 & Hl2 & Hk2 & Hr1 & Hr2 & Hu & _).
  exists w1, w2. unfold order, lambda, warp_gain, u.
  rewrite Hs1, Hs2, Hr1, Hr2. done.
Qed.

Lemma x_was_and_reset_state_return_witness :
  exists w w1 w2,
    run [SetParams demo_lambda (-3) []] demo_new = Ok w /\
    order w = -3 /\
    x_was f1 w = Ok w1 /\ reset_state w = Ok w2 /\
    order w1 = -3 /\ order w2 = -3.
Proof.
  destruct (run [SetParams demo_lambda (-3) []] demo_new) as [w|f] eqn:Hrun;
    [|vm_compute in Hrun; discriminate].
  assert (order w = -3) as Hord
    by (vm_compute in Hrun; injection Hrun as <-; reflexivity).
  destruct (x_was_and_reset_state_return (fun _ => f0) (fun _ => f0)
              [SetParams demo_lambda (-3) []] w f1 Hrun)
    as (w1 & w2 & Hx & Hr & (Ho1 & _) & (Ho2 & _) & _).
  exists w, w1, w2. split; [reflexivity|]. split; [exact Hord|].
  split; [exact Hx|]. split; [exact Hr|].
  split; [exact (eq_trans Ho1 Hord)|exact (eq_trans Ho2 Hord)].
Defined.

(** *** What [set_params] leaves alone *)

(** X11.  [set_params] is no reset: it writes no delay outside
    [[old order, new order)] and no coefficient at or above the new
    order.  In particular a call that does not raise the order leaves
    the whole delay line as it is. *)
Theorem set_params_keeps_delays lam ord newk w w' :
  sized w ->
  set_params lam ord newk w = Ok w' ->
  (forall m : nat, ~ order w <= Z.of_nat m < order w' ->
     t_ w' !! m = t_ w !! m) /\
  (forall m : nat, order w' <= Z.of_nat m -> k_ w' !! m = k_ w !! m) /\
  (order w' <= order w -> t_ w' = t_ w).
Proof.
  intros Hsz Hrun. pose proof (set_params_Ok _ _ _ _ _ Hsz Hrun) as P.
  unfold order. split; [|split].
  - intros m Hm. by apply (sp_t_old _ _ _ _ _ P).
  - intros m Hm. apply (sp_k_old _ _ _ _ _ P). lia.
  - intros Hle. apply list_eq. intros m.
    apply (sp_t_old _ _ _ _ _ P). lia.
Qed.

Lemma set_params_keeps_delays_witness :
  exists w v w',
    run demo_history demo_new = Ok w /\ x_was f1 w = Ok v /\
    set_params f0 1 [f1] v = Ok w' /\
    t_ w' = t_ v /\ t_ v !! 1%nat <> Some f0 /\
    k_ w' !! 1%nat = k_ v !! 1%nat.
Proof.
  destruct (run demo_history demo_new) as [w|f] eqn:Hrun;
    [|vm_compute in Hrun; discriminate].
  destruct (x_was f1 w) as [v|f] eqn:Hx;
    [|vm_compute in Hrun; injection Hrun as <-;
      vm_compute in Hx; discriminate].
  destruct (set_params f0 1 [f1] v) as [w'|f] eqn:Hset;
    [|vm_compute in Hrun; injection Hrun as <-;
      vm_compute in Hx; injection Hx as <-;
      vm_compute in Hset; discriminate].
  assert (sized v /\ order w' <= order v /\ order w' <= 1 /\
          t_ v !! 1%nat <> Some f0) as (Hsz & Hle & Hone & Hnz).
  { pose proof Hset as Hval.
    vm_compute in Hrun. injection Hrun as <-.
    vm_compute in Hx. injection Hx as <-.
    vm_compute in Hval. injection Hval as <-.
    split; [by split|]. split; [by vm_compute|]. split; by vm_compute. }
  destruct (set_params_keeps_delays f0 1 [f1] v w' Hsz Hset) as (_ & Hk & Ht).
  exists w, v, w'. split; [reflexivity|]. split; [exact Hx|].
  split; [exact Hset|]. split; [exact (Ht Hle)|].
  split; [exact Hnz|]. apply Hk. exact Hone.
Defined.

(** *** The two overloads *)

Lemma fill_loop_Ok_length junk it n s :
  for_range 0 n fill_body (indeterminate_array junk, it) = Ok s ->
  (Z.to_nat n <= length it)%nat.
Proof.
  intros Hfill. destruct (decide (0 <= n)) as [Hn|Hn]; [|lia].
  pose proof (for_range_partial
    (fun j s => (Z.to_nat j <= length it)%nat /\
                snd s = drop (Z.to_nat j) it)
    fill_body 0 n (indeterminate_array junk, it) s) as Hinv.
  destruct Hinv as [Hle _]; [lia| | |done|lia].
  - split; [cbn; lia|done].
  - intros j [temp rest] s' Hj [Hle Hrest] Hbody. cbn [snd] in *.
    subst rest. unfold fill_body in Hbody.
    destruct (drop (Z.to_nat j) it) as [|v rest'] eqn:Hdrop; [done|].
    apply bind_Ok in Hbody as (temp' & _ & [= <-]). cbn [snd].
    assert (Z.to_nat j < length it)%nat.
    { apply (f_equal length) in Hdrop. rewrite length_drop in Hdrop.
      cbn in Hdrop. lia. }
    split; [lia|].
    replace (Z.to_nat (j + 1)) with (Datatypes.S (Z.to_nat j)) by lia.
    apply (f_equal (drop 1)) in Hdrop. rewrite drop_drop in Hdrop.
    cbn in Hdrop. rewrite drop_0 in Hdrop. rewrite <- Hdrop. f_equal. lia.
Qed.

(** X12.  The iterator overload and the pointer overload agree for every
    order, not only above [MAX_ORDER]: given the same sequence, one
    returns exactly when the other does, and with the same filter,
    whatever the local buffer [temp] held before it was filled. *)
Theorem set_params_overloads_agree junk lam ord it w w' :
  sized w ->
  set_params_iter junk lam ord it w = Ok w' <->
  set_params lam ord it w = Ok w'.
Proof.
  intros Hsz. split; intros Hrun.
  - assert (set_params_defined ord it w) as [Hzero Hlen].
    { unfold set_params_iter in Hrun.
      apply bind_Ok in Hrun as (s & Hfill & Hrun).
      apply fill_loop_Ok_length in Hfill.
      apply set_params_Ok_inv in Hrun as [Hzero _]; [|done].
      split; [|done]. intros Hlt. apply Hzero. lia. }
    destruct (set_params_total lam ord it w Hsz Hzero Hlen) as (v & Hv & P).
    destruct (set_params_iter_total junk lam ord it w Hsz Hzero Hlen)
      as (v' & Hv' & P').
    rewrite Hv. f_equal.
    assert (v' = w') as <- by congruence.
    by apply (set_params_post_unique lam ord it it w).
  - destruct (set_params_Ok_inv _ _ _ _ _ Hsz Hrun) as [Hzero Hlen].
    pose proof (set_params_Ok _ _ _ _ _ Hsz Hrun) as P.
    destruct (set_params_iter_total junk lam ord it w Hsz Hzero Hlen)
      as (v' & Hv' & P').
    rewrite Hv'. f_equal.
    by apply (set_params_post_unique lam ord it it w).
Qed.

Lemma set_params_overloads_agree_witness :
  exists w',
    set_params demo_lambda 2 demo_k demo_new = Ok w' /\
    set_params_iter (fun _ => f1) demo_lambda 2 demo_k demo_new = Ok w'.
Proof.
  destruct (set_params demo_lambda 2 demo_k demo_new) as [w'|f] eqn:Hset;
    [|vm_compute in Hset; discriminate].
  exists w'. split; [reflexivity|].
  apply (set_params_overloads_agree (fun _ => f1) demo_lambda 2 demo_k
           demo_new w'); [by split|exact Hset].
Defined.

(** X13.  [set_params] reads the first [min(ord, MAX_ORDER)] elements of
    the caller's array and nothing else: an array that agrees with it on
    those elements gives the same filter, whatever else it holds and
    however long it is. *)
Theorem set_params_reads_prefix lam ord newk1 newk2 w w' :
  sized w ->
  (forall m, (m < Z.to_nat (Z.min ord max_wapl_filt_order))%nat ->
     newk1 !! m = newk2 !! m) ->
  set_params lam ord newk1 w = Ok w' ->
  set_params lam ord newk2 w = Ok w'.
Proof.
  intros Hsz Hsame Hrun.
  destruct (set_params_Ok_inv _ _ _ _ _ Hsz Hrun) as [Hzero Hlen].
  pose proof (set_params_Ok _ _ _ _ _ Hsz Hrun) as P.
  set (n := Z.to_nat (Z.min ord max_wapl_filt_order)) in *.
  assert (n <= length newk2)%nat as Hlen2.
  { destruct n as [|n'] eqn:E; [lia|].
    destruct (lookup_lt_is_Some_2 newk1 n') as [v Hv]; [lia|].
    rewrite Hsame in Hv by lia. apply lookup_lt_Some in Hv. lia. }
  destruct (set_params_total lam ord newk2 w Hsz Hzero Hlen2)
    as (v & -> & P2).
  f_equal. symmetry. by apply (set_params_post_unique lam ord newk1 newk2 w).
Qed.

Lemma set_params_reads_prefix_witness :
  exists w',
    set_params demo_lambda 1 demo_k demo_new = Ok w' /\
    set_params demo_lambda 1 [flit 1 4; f1; Float S754_nan] demo_new = Ok w'.
Proof.
  destruct (set_params demo_lambda 1 demo_k demo_new) as [w'|f] eqn:Hset;
    [|vm_compute in Hset; discriminate].
  exists w'. split; [reflexivity|].
  apply (set_params_reads_prefix demo_lambda 1 demo_k
           [flit 1 4; f1; Float S754_nan] demo_new w').
  - by split.
  - intros [|m] Hm; [reflexivity|]. unfold max_wapl_filt_order in Hm.
    cbn in Hm. lia.
  - exact Hset.
Defined.

(** *** Delays of inactive stages *)

(** X14.  No member function reads the delay of an inactive stage before
    writing it: on any filter reached from the constructor, replacing
    the delays [t_[i]], [i >= order], by any other values changes
    nothing that later calls return or leave in [u()], the active
    delays and the configuration. *)
Theorem inactive_delays_are_never_read junk_k junk_t h0 w stale h w' :
  run h0 (waplns_new junk_k junk_t) = Ok w ->
  length stale = Z.to_nat max_wapl_filt_order ->
  stages (order w) stale = stages (order w) (t_ w) ->
  run h w = Ok w' ->
  exists v',
    run h (set_t w stale) = Ok v' /\ u v' = u w' /\ same_active w' v'.
Proof.
  intros Hrun0 Hlen Hst Hrun.
  assert (reached w) as Hre by (eapply run_reached; [apply reached_new|done]).
  destruct (run_same_active h w (set_t w stale) w' Hre) as (v' & Hv & Hsa);
    [| |done|].
  - destruct (re_sized _ Hre) as [Hk Ht]. by split.
  - by split.
  - exists v'. split; [done|]. split; [|done].
    unfold u. symmetry. apply Hsa.
Qed.

Lemma inactive_delays_are_never_read_witness :
  exists w w' v',
    run demo_history demo_new = Ok w /\
    run [XWas f1; SetParams demo_lambda 3 (demo_k ++ [f1]); XWas f1] w
      = Ok w' /\
    run [XWas f1; SetParams demo_lambda 3 (demo_k ++ [f1]); XWas f1]
        (set_t w (replicate 2 f0 ++ replicate 30 f1)) = Ok v' /\
    u v' = u w'.
Proof.
  destruct (run demo_history demo_new) as [w|f] eqn:Hrun;
    [|vm_compute in Hrun; discriminate].
  destruct (run [XWas f1; SetParams demo_lambda 3 (demo_k ++ [f1]); XWas f1] w)
    as [w'|f] eqn:Hrun';
    [|vm_compute in Hrun; injection Hrun as <-;
      vm_compute in Hrun'; discriminate].
  assert (stages (order w) (replicate 2 f0 ++ replicate 30 f1)
          = stages (order w) (t_ w)) as Hst
    by (vm_compute in Hrun; injection Hrun as <-; by vm_compute).
  destruct (inactive_delays_are_never_read (fun _ => f0) (fun _ => f0)
              demo_history w (replicate 2 f0 ++ replicate 30 f1)
              [XWas f1; SetParams demo_lambda 3 (demo_k ++ [f1]); XWas f1] w'
              Hrun eq_refl Hst Hrun') as (v' & Hv & Hu & _).
  exists w, w', v'. split; [reflexivity|]. split; [exact Hrun'|].
  split; [exact Hv|exact Hu].
Defined.

(** X15.  Without an active stage the filter has unit gain: on every
    filter reached from the constructor whose order is 0 (or negative),
    [warp_gain()] is exactly 1 and [u()] is 0, whatever [lambda] and the
    earlier calls were. *)
Theorem warp_gain_without_stages junk_k junk_t h w :
  run h (waplns_new junk_k junk_t) = Ok w ->
  order w <= 0 ->
  warp_gain w = f1 /\ u w = f0.
Proof.
  intros Hrun Hord.
  assert (reached w) as Hre by (eapply run_reached; [apply reached_new|done]).
  unfold warp_gain, u.
  rewrite (re_s1 _ Hre), (re_s2 _ Hre Hord), (re_next_u _ Hre Hord).
  split; reflexivity.
Qed.

Lemma warp_gain_without_stages_witness :
  exists w,
    run (demo_history ++ [XWas f1; SetParams (Float S754_nan) 0 []]) demo_new
      = Ok w /\
    order w <= 0 /\ warp_gain w = f1 /\ u w = f0.
Proof.
  destruct (run (demo_history ++ [XWas f1; SetParams (Float S754_nan) 0 []])
              demo_new) as [w|f] eqn:Hrun;
    [|vm_compute in Hrun; discriminate].
  assert (order w <= 0) as Hord
    by (vm_compute in Hrun; injection Hrun as <-; by vm_compute).
  exists w. split; [reflexivity|]. split; [exact Hord|].
  exact (warp_gain_without_stages (fun _ => f0) (fun _ => f0) _ w Hrun Hord).
Defined.
